(** * CAN chat on the Arduino Mega: frame codec, dispatcher and session setup

    A shallow embedding of [canChat/mega/mega.ino].  The sketch multiplexes
    chat text and LED commands over the 11-bit identifier of a CAN base
    frame:

      bit 10      chat indication (0 = chat, 1 = device command)
      bits 5..9   source, one bit per team member
      bits 0..4   destination, one bit per team member

    Integers are mathematical integers ([Z]) with the truncation of each C
    type of the ATmega2560 written out: [byte] is 8 bits wide, [unsigned int]
    16 bits and [unsigned long] 32 bits. *)

From Stdlib Require Import ZArith List String Ascii Bool Lia.
Import ListNotations.

Local Open Scope string_scope.
Local Open Scope list_scope.
Local Open Scope Z_scope.

(** ** Machine integers *)

Definition to_byte (x : Z) : Z := x mod 2 ^ 8.
Definition to_uint (x : Z) : Z := x mod 2 ^ 16.
Definition to_ulong (x : Z) : Z := x mod 2 ^ 32.

(** [int] is a 16-bit two's complement integer. *)
Definition to_int (x : Z) : Z := (x + 2 ^ 15) mod 2 ^ 16 - 2 ^ 15.

(** ** Types *)

Inductive Device : Type :=
| UNO    (* Arduino Uno *)
| MEGA.  (* Arduino Mega *)

Definition Device_val (d : Device) : Z :=
  match d with
  | UNO => 0
  | MEGA => 1
  end.

Inductive Zero : Type :=
| NONE   (* none of the members *)
| JZ     (* Joel Zamora *)
| RH     (* Richard Hemphill *)
| WM     (* William Mckinnon *)
| EH     (* Eric Hansen *)
| DC.    (* Daniel Caballero *)

Definition Zero_val (z : Zero) : Z :=
  match z with
  | NONE => 0   (* B00000 *)
  | JZ => 1     (* B00001 *)
  | RH => 2     (* B00010 *)
  | WM => 4     (* B00100 *)
  | EH => 8     (* B01000 *)
  | DC => 16    (* B10000 *)
  end.

(** ** Constants *)

(** Modelled from the spec: [CAN_MAX_CHAR_IN_MESSAGE] is a macro of the
    MCP2515 driver ([mcp_can.h]); the payload of a frame is bounded by 8
    bytes. *)
Definition CAN_MAX_CHAR_IN_MESSAGE : Z := 8.

(** Modelled from the spec: [LOW] and [HIGH] are the pin levels of the
    Arduino core, 0 for off and 1 for on. *)
Definition LOW : Z := 0.
Definition HIGH : Z := 1.

Definition ERROR_MSG : string := "ERROR".
Definition LED_PIN : Z := 24.
Definition CAN_BASE_FRAME_FORMAT : Z := 0.
Definition CAN_ID_CHAT : Z := 0x3ff.
Definition CAN_SRC_SHIFT : Z := 5.
Definition CAN_CHAT_MASK : Z := 0x400.
Definition CAN_ZERO_MASK : Z := 31.   (* B11111 *)
Definition CAN_DEVICE_CMD : Z := 0x400.
Definition MY_DEVICE : Device := MEGA.
Definition MY_DEV_NAME : string := "Aduino Mega".
Definition DEVICE_TO_COMMAND : Device := UNO.
Definition DEV_TO_CMD_NAME : string := "Aduino Uno".
Definition DEV_INDEX : Z := 0.
Definition VAL_INDEX : Z := 1.
Definition LED_ON_MSG : string := "LED On".
Definition LED_OFF_MSG : string := "LED Off".
Definition MSG_TOO_LONG : string := "Msg Len Too Long".
Definition DIVIDER : string := "--------------------".
Definition ZERO_NONE : string := "None".
Definition ZERO_NAME_JZ : string := "Joel Zamora".
Definition ZERO_NAME_RH : string := "Richard Hemphill".
Definition ZERO_NAME_WM : string := "William Mckinnon".
Definition ZERO_NAME_EH : string := "Eric Hansen".
Definition ZERO_NAME_DC : string := "Daniel Caballero".
Definition ZERO_ALL : string := "Everyone".
Definition NUMBER_STYLE : string := ". ".
Definition QUERY_USER : string := "Which member are you?".
Definition QUERY_TARGET : string := "Which members should message be sent to?".
Definition QUERY_ANOTHER : string := "Another member (n to exit)?".
Definition USER_WELCOME : string := "Welcome ".
Definition RECIPIENT_LIST : string := "List of recipients:".
Definition MESSAGING_CAN_START : string := "You can now send messages.".
Definition INVALID_SELECTION : string := "Input types is out of range!".
Definition CHAT_SENT : string := "SENT: ".
Definition FIRST_SECOND_SEG : string := ": ".

(** ** C strings and byte buffers

    A C string is modelled by the characters in front of its terminating
    NUL, so that [strlen] is the number of characters; a buffer of bytes is a
    list of integers below 256. *)

Definition strlen (s : string) : Z := Z.of_nat (String.length s).

Definition char_val (c : ascii) : Z := Z.of_N (N_of_ascii c).

Definition c_bytes (s : string) : list Z := map char_val (list_ascii_of_string s).

(** [buf[i]], reading 0 where the model holds no byte. *)
Definition at_index (buf : list Z) (i : Z) : Z := nth (Z.to_nat i) buf 0.

(** ** Global variables, observable effects and the program monad *)

Record Globals : Type := mkGlobals {
  me : Zero;          (* member of zero using device *)
  destination : Z;    (* byte: bit packed recipients *)
  lastId : Z          (* unsigned int: id of the last transmission *)
}.

(** What [MCP_CAN::sendMsgBuf] puts on the bus. *)
Record Frame : Type := mkFrame {
  can_id : Z;
  ext : Z;
  dlc : Z;
  payload : list Z
}.

Inductive Event : Type :=
| CanTx (f : Frame)                        (* mpcCan.sendMsgBuf *)
| SerialPrint (s : string)                 (* Serial.print *)
| SerialPrintInt (n : Z)                   (* Serial.print of an int *)
| SerialPrintln (s : string)               (* Serial.println *)
| LcdPacket (id len : Z) (data : list Z)   (* displayCanPacket on the LCD *)
| DigitalWrite (pin val : Z).              (* digitalWrite *)

(** A program reads and writes the globals and appends to the trace of
    effects. *)
Definition Prog (A : Type) : Type := Globals -> A * Globals * list Event.

Definition ret {A : Type} (a : A) : Prog A := fun g => (a, g, []).

Definition bind {A B : Type} (m : Prog A) (k : A -> Prog B) : Prog B :=
  fun g =>
    let '(a, g1, o1) := m g in
    let '(b, g2, o2) := k a g1 in
    (b, g2, o1 ++ o2).

Declare Scope prog_scope.
Delimit Scope prog_scope with prog.
Notation "x <- m ;; k" := (bind m (fun x => k))
  (at level 61, m at next level, right associativity) : prog_scope.
Notation "m ;; k" := (bind m (fun _ => k))
  (at level 61, right associativity) : prog_scope.
Local Open Scope prog_scope.

Definition get : Prog Globals := fun g => (g, g, []).
Definition emit (e : Event) : Prog unit := fun g => (tt, g, [e]).
Definition set_lastId (v : Z) : Prog unit :=
  fun g => (tt, mkGlobals (me g) (destination g) v, []).

Definition globals_of {A : Type} (r : A * Globals * list Event) : Globals :=
  snd (fst r).
Definition trace_of {A : Type} (r : A * Globals * list Event) : list Event :=
  snd r.

(** The frames of a trace, oldest first. *)
Fixpoint frames (t : list Event) : list Frame :=
  match t with
  | [] => []
  | CanTx f :: t' => f :: frames t'
  | _ :: t' => frames t'
  end.

(** ** Display functions *)

(** [mpcCan.sendMsgBuf(id, ext, len, buf)]: the first [len] bytes of [buf]
    go out under [id]. *)
Definition sendMsgBuf (id ext len : Z) (buf : list Z) : Prog unit :=
  emit (CanTx (mkFrame id ext len (firstn (Z.to_nat len) buf))).

Definition displaySerial (line second : string) : Prog unit :=
  let buff := (line ++ FIRST_SECOND_SEG ++ second)%string in
  emit (SerialPrintln buff).

Definition display (first second : string) : Prog unit :=
  displaySerial first second.

(** The two lines the LCD shows are a rendering of the three arguments; the
    trace keeps the arguments. *)
Definition displayCanPacket (id len : Z) (data : list Z) : Prog unit :=
  emit (LcdPacket id len data).

(** ** Sender functions *)

Definition sendCanMsg (msg : string) : Prog unit :=
  let len := to_byte (strlen msg) in
  if len >? CAN_MAX_CHAR_IN_MESSAGE then
    display ERROR_MSG MSG_TOO_LONG
  else
    g <- get ;;
    let id := 0 in
    let id := Z.land id CAN_ID_CHAT in
    let id := to_ulong (Z.lor id (Z.shiftl (Zero_val (me g)) CAN_SRC_SHIFT)) in
    let id := to_ulong (Z.lor id (destination g)) in
    (if negb (lastId g =? id) then
       sendMsgBuf id CAN_BASE_FRAME_FORMAT 0 [] ;;
       set_lastId (to_uint id)
     else ret tt) ;;
    sendMsgBuf id CAN_BASE_FRAME_FORMAT len (c_bytes msg) ;;
    emit (SerialPrint CHAT_SENT) ;;
    emit (SerialPrintln msg) ;;
    displayCanPacket id len (c_bytes msg).

Definition canLedCmdSender (ledVal : Z) : Prog unit :=
  let data := [to_byte (Device_val DEVICE_TO_COMMAND); to_byte ledVal] in
  let sz := 2 in
  let id := CAN_DEVICE_CMD in
  g <- get ;;
  (if negb (lastId g =? id) then
     sendMsgBuf id CAN_BASE_FRAME_FORMAT 0 [] ;;
     set_lastId id
   else ret tt) ;;
  sendMsgBuf id CAN_BASE_FRAME_FORMAT sz data ;;
  if ledVal =? HIGH then display DEV_TO_CMD_NAME LED_ON_MSG
  else display DEV_TO_CMD_NAME LED_OFF_MSG.

(** ** Condition checks *)

(** The result of [isChat] with its two out-parameters.  [sender] is the
    value cast to [Zero]: the cast keeps any 5-bit value, also one that is
    not an enumerator. *)
Record ChatInfo : Type := mkChatInfo {
  is_chat : bool;
  sender : Z;
  forMe : bool
}.

Definition isChat (g : Globals) (id : Z) : ChatInfo :=
  let chat := Z.land (to_ulong (Z.lnot id)) CAN_CHAT_MASK >? 0 in
  let src := to_byte (Z.land (Z.shiftr id CAN_SRC_SHIFT) CAN_ZERO_MASK) in
  let dst := to_byte (Z.land id CAN_ZERO_MASK) in
  mkChatInfo (chat && (src >? 0)) src (Z.land dst (Zero_val (me g)) >? 0).

(** The second component is the value left in [*ledVal]; the early return
    leaves it unwritten. *)
Definition isMyLed (len : Z) (data : list Z) : bool * option Z :=
  if len <? VAL_INDEX + 1 then (false, None)
  else (at_index data DEV_INDEX =? Device_val MY_DEVICE,
        Some (at_index data VAL_INDEX)).

(** ** Processing functions *)

Definition ascii_of_byte (b : Z) : ascii := ascii_of_N (Z.to_N b).

(** The C string that starts a buffer: the bytes in front of the first NUL. *)
Fixpoint cstr_of_bytes (l : list Z) : string :=
  match l with
  | [] => EmptyString
  | b :: l' => if b =? 0 then EmptyString
               else String (ascii_of_byte b) (cstr_of_bytes l')
  end.

Definition displayChatMessage (sender len : Z) (data : list Z) : Prog unit :=
  let srcName :=
    if sender =? Zero_val JZ then ZERO_NAME_JZ
    else if sender =? Zero_val RH then ZERO_NAME_RH
    else if sender =? Zero_val WM then ZERO_NAME_WM
    else if sender =? Zero_val EH then ZERO_NAME_EH
    else if sender =? Zero_val DC then ZERO_NAME_DC
    else ZERO_NONE in
  let msg := cstr_of_bytes (firstn (Z.to_nat len) data) in
  display srcName msg.

Definition processLedCmd (len : Z) (data : list Z) : Prog unit :=
  match isMyLed len data with
  | (true, Some ledVal) => emit (DigitalWrite LED_PIN ledVal)
  | _ => ret tt
  end.

Definition processCanPacket (id len : Z) (data : list Z) : Prog unit :=
  g <- get ;;
  let c := isChat g id in
  (if is_chat c then
     if forMe c then displayChatMessage (sender c) len data else ret tt
   else processLedCmd len data) ;;
  displayCanPacket id len data.

(** ** The main loop

    Once [setup] has returned, [loop] runs the three threads for ever; each
    run of a thread ends in at most one of these calls. *)
Inductive Call : Type :=
| CallSendCanMsg (msg : string)                       (* canMsgSender *)
| CallCanLedCmdSender (ledVal : Z)                    (* buttonHandler *)
| CallProcessCanPacket (id len : Z) (data : list Z).  (* canMsgReceiver *)

Definition call (c : Call) : Prog unit :=
  match c with
  | CallSendCanMsg msg => sendCanMsg msg
  | CallCanLedCmdSender ledVal => canLedCmdSender ledVal
  | CallProcessCanPacket id len data => processCanPacket id len data
  end.

Fixpoint run (cs : list Call) : Prog unit :=
  match cs with
  | [] => ret tt
  | c :: cs' => call c ;; run cs'
  end.

(** ** Setup functions

    The operator's replies are the successive results of
    [Serial.readString()].  A setup function either returns, with the replies
    it has not read, or is still polling the serial line when the replies run
    out, or leaves the behaviour C defines. *)

Inductive Outcome : Type :=
| Finished (g : Globals) (rest : list string)
| Polling (g : Globals)
| Undefined.

Definition is_space (c : ascii) : bool :=
  let n := char_val c in (n =? 32) || ((9 <=? n) && (n <=? 13)).

Definition digit_of (c : ascii) : option Z :=
  let n := char_val c in
  if (48 <=? n) && (n <=? 57) then Some (n - 48) else None.

Fixpoint skip_spaces (s : string) : string :=
  match s with
  | String c s' => if is_space c then skip_spaces s' else s
  | EmptyString => s
  end.

Fixpoint atoi_digits (acc : Z) (s : string) : Z :=
  match s with
  | String c s' =>
      match digit_of c with
      | Some d => atoi_digits (10 * acc + d) s'
      | None => acc
      end
  | EmptyString => acc
  end.

(** [atoi] of the C library: white space, an optional sign, then the longest
    run of decimal digits; 0 when there is none.  The result is an [int]. *)
Definition atoi (s : string) : Z :=
  match skip_spaces s with
  | String "-"%char s' => to_int (- atoi_digits 0 s')
  | String "+"%char s' => to_int (atoi_digits 0 s')
  | s' => to_int (atoi_digits 0 s')
  end.

(** [String::startsWith]. *)
Definition startsWith (s p : string) : bool := String.prefix p s.

(** [1U << n] on a 16-bit [unsigned int], defined for [0 <= n < 16] only. *)
Definition shl_1U (n : Z) : option Z :=
  if (0 <=? n) && (n <? 16) then Some (to_uint (Z.shiftl 1 n)) else None.

(** One line of a numbered menu: [Serial.print(member++)], the separator and
    the name. *)
Definition print_member (member : Z) (name : string) : list Event :=
  [SerialPrintInt member; SerialPrint NUMBER_STYLE; SerialPrintln name].

(** The lines of a menu, numbered from [member] on, and the value of
    [member] after the last [member++]. *)
Fixpoint print_members (member : Z) (names : list string) : list Event * Z :=
  match names with
  | [] => ([], member)
  | name :: names' =>
      let (out, member') := print_members (member + 1) names' in
      (print_member member name ++ out, member')
  end.

(** The polling loop of [setupUser]:
    [while ((member <= 0) || (member >= numMembers))]. *)
Fixpoint setupUser_loop (numMembers member : Z) (input : list string)
  : option (Z * list string) :=
  if (member <=? 0) || (member >=? numMembers) then
    match input with
    | [] => None
    | reply :: rest => setupUser_loop numMembers (atoi reply) rest
    end
  else Some (member, input).

(** The [switch (member)] of [setupUser]. *)
Definition select_member (member : Z) : Zero * string :=
  if member =? 1 then (JZ, ZERO_NAME_JZ)
  else if member =? 2 then (RH, ZERO_NAME_RH)
  else if member =? 3 then (WM, ZERO_NAME_WM)
  else if member =? 4 then (EH, ZERO_NAME_EH)
  else if member =? 5 then (DC, ZERO_NAME_DC)
  else (NONE, ZERO_NONE).

Definition setupUser (g : Globals) (input : list string) : list Event * Outcome :=
  let member := 1 in
  let (menu, member) :=
    print_members member
      [ZERO_NAME_JZ; ZERO_NAME_RH; ZERO_NAME_WM; ZERO_NAME_EH; ZERO_NAME_DC] in
  let numMembers := member - 1 in
  let member := -1 in
  let out := [SerialPrintln DIVIDER; SerialPrintln QUERY_USER] ++ menu in
  match setupUser_loop numMembers member input with
  | None => (out, Polling g)
  | Some (member, rest) =>
      let (who, name) := select_member member in
      (out ++ [SerialPrintln DIVIDER; SerialPrint USER_WELCOME;
               SerialPrintln name; SerialPrintln DIVIDER],
       Finished (mkGlobals who (destination g) (lastId g)) rest)
  end.

(** How the [do ... while (true)] of [setupTargets] ends. *)
Inductive LoopEnd : Type :=
| Chosen (destination : Z) (rest : list string)   (* left by [break] *)
| Waiting (destination : Z)                       (* polling the serial line *)
| Shift_undefined.                                (* [1U << (member-1)] out of range *)

Fixpoint setupTargets_loop (my : Zero) (allMembers destination : Z)
    (input : list string) : list Event * LoopEnd :=
  match input with
  | [] => ([], Waiting destination)
  | reply :: rest =>
      if startsWith reply "n" && negb (destination =? 0) then
        ([], Chosen destination rest)
      else
        let member := atoi reply in
        if member =? allMembers then
          let destination := CAN_ZERO_MASK in
          let destination := to_byte (Z.land destination (Z.lnot (Zero_val my))) in
          ([], Chosen destination rest)
        else if (member >? 0) || (member <? allMembers) then
          match shl_1U (member - 1) with
          | None => ([], Shift_undefined)
          | Some bit =>
              let destination := to_byte (Z.lor destination bit) in
              let (out, e) := setupTargets_loop my allMembers destination rest in
              (SerialPrintln QUERY_ANOTHER :: out, e)
          end
        else
          let (out, e) := setupTargets_loop my allMembers destination rest in
          (SerialPrintln INVALID_SELECTION :: SerialPrintln QUERY_ANOTHER :: out, e)
  end.

(** The recipient list printed at the end of [setupTargets]. *)
Definition print_recipients (destination : Z) : list Event :=
  let line (z : Zero) (name : string) :=
    if Z.land destination (Zero_val z) >? 0 then [SerialPrintln name] else [] in
  line JZ ZERO_NAME_JZ ++ line RH ZERO_NAME_RH ++ line WM ZERO_NAME_WM ++
  line EH ZERO_NAME_EH ++ line DC ZERO_NAME_DC.

Definition setupTargets (g : Globals) (input : list string) : list Event * Outcome :=
  let destination0 := 0 in
  let member := 1 in
  let (menu, member) :=
    print_members member
      [ZERO_NAME_JZ; ZERO_NAME_RH; ZERO_NAME_WM; ZERO_NAME_EH; ZERO_NAME_DC;
       ZERO_ALL] in
  let allMembers := member - 1 in
  let out := menu ++ [SerialPrintln QUERY_TARGET] in
  let (asked, e) := setupTargets_loop (me g) allMembers destination0 input in
  match e with
  | Waiting d => (out ++ asked, Polling (mkGlobals (me g) d (lastId g)))
  | Shift_undefined => (out ++ asked, Undefined)
  | Chosen d rest =>
      (out ++ asked ++
       [SerialPrintln DIVIDER; SerialPrintln RECIPIENT_LIST] ++
       print_recipients d ++
       [SerialPrintln DIVIDER; SerialPrintln MESSAGING_CAN_START;
        SerialPrintln DIVIDER],
       Finished (mkGlobals (me g) d (lastId g)) rest)
  end.

(** The two prompts of [setup], one after the other. *)
Definition setup_session (g : Globals) (input : list string) : list Event * Outcome :=
  match setupUser g input with
  | (out1, Finished g1 rest) =>
      let (out2, e) := setupTargets g1 rest in (out1 ++ out2, e)
  | r => r
  end.

(** The globals as the sketch initialises them. *)
Definition initial : Globals := mkGlobals NONE 0 0.

(** ** Vocabulary of the properties *)

(** The three fields of an identifier. *)
Definition kind_bit (id : Z) : bool := Z.testbit id 10.
Definition sender_field (id : Z) : Z :=
  Z.land (Z.shiftr id CAN_SRC_SHIFT) CAN_ZERO_MASK.
Definition recipient_field (id : Z) : Z := Z.land id CAN_ZERO_MASK.

(** The identifier [sendCanMsg] computes, as a function of the two globals
    it reads. *)
Definition chat_id (who : Zero) (dest : Z) : Z :=
  let id := 0 in
  let id := Z.land id CAN_ID_CHAT in
  let id := to_ulong (Z.lor id (Z.shiftl (Zero_val who) CAN_SRC_SHIFT)) in
  to_ulong (Z.lor id dest).

(** The recipients [setupTargets] stores when the operator picks
    "Everyone": [destination = CAN_ZERO_MASK; destination &= ~me]. *)
Definition broadcast_minus_self (who : Zero) : Z :=
  to_byte (Z.land CAN_ZERO_MASK (Z.lnot (Zero_val who))).

(** [destination] is a [byte]. *)
Definition byte_destination (g : Globals) : Prop := 0 <= destination g < 256.

(** A recipient set is a set of members: no bit above the five team bits. *)
Definition recipient_set (r : Z) : Prop := 0 <= r <= CAN_ZERO_MASK.

(** The frame transmitted last in a trace. *)
Definition last_frame (t : list Event) : option Frame :=
  match rev (frames t) with
  | [] => None
  | f :: _ => Some f
  end.

(** The priming frame, if the identifier differs from the stored one. *)
Definition priming (last id : Z) : list Frame :=
  if last =? id then [] else [mkFrame id CAN_BASE_FRAME_FORMAT 0 []].

(** [lastId] after a program: the identifier of the last frame it sent, or
    the value it started from when it sent none. *)
Definition lastId_tracks (g0 : Globals) (r : unit * Globals * list Event) : Prop :=
  lastId (globals_of r)
  = match last_frame (trace_of r) with
    | Some f => can_id f
    | None => lastId g0
    end.

(** The name [displayChatMessage] prints for a member. *)
Definition Zero_name (z : Zero) : string :=
  match z with
  | NONE => ZERO_NONE
  | JZ => ZERO_NAME_JZ
  | RH => ZERO_NAME_RH
  | WM => ZERO_NAME_WM
  | EH => ZERO_NAME_EH
  | DC => ZERO_NAME_DC
  end.

(** A text with no NUL character in it. *)
Fixpoint no_nul (s : string) : bool :=
  match s with
  | EmptyString => true
  | String c s' => negb (char_val c =? 0) && no_nul s'
  end.

(** A text of [n] letters a. *)
Fixpoint letters (n : nat) : string :=
  match n with
  | O => EmptyString
  | S n' => String "a"%char (letters n')
  end.

(** ** The other functions of the sketch *)

Definition CAN_BUS : string := "CAN Bus".
Definition CAN_INIT : string := "Initializing".
Definition CAN_INIT_RDY : string := "Init Ready".
Definition CAN_INIT_FAIL : string := "Init Failed".
Definition CAN_READ_FAIL : string := "Read Failed".

(** *** [byteArrayToStr] *)

(** One digit of [%X]. *)
Definition hex_digit (n : Z) : ascii :=
  if n <? 10 then ascii_of_byte (48 + n) else ascii_of_byte (55 + n).

(** [sprintf(.., "%02X", b)] for a byte [b]. *)
Definition hex02X (b : Z) : string :=
  String (hex_digit (b / 16)) (String (hex_digit (b mod 16)) EmptyString).

(** The loop of [byteArrayToStr] from index [i] on, [n] rounds to go: each
    round prints two digits over the terminator the round before left. *)
Fixpoint hex_pairs (byteArray : list Z) (i : Z) (n : nat) : string :=
  match n with
  | O => EmptyString
  | S n' => (hex02X (at_index byteArray i) ++ hex_pairs byteArray (i + 1) n')%string
  end.

(** The C string [byteArrayToStr] leaves in [str]. *)
Definition byteArrayToStr (byteArray : list Z) (len : Z) : string :=
  hex_pairs byteArray 0 (Z.to_nat len).

(** The value of a digit of [hex_digit]. *)
Definition hex_val (c : ascii) : Z :=
  let n := char_val c in if n <? 58 then n - 48 else n - 55.

(** *** [buttonHandler]

    The static [lastButtonVal] is passed in and its new value returned;
    [buttonVal] is what [digitalRead(BUTTON_PIN)] gives. *)
Definition buttonHandler (lastButtonVal buttonVal : Z) : Prog Z :=
  if negb (buttonVal =? lastButtonVal) then
    canLedCmdSender buttonVal ;;
    ret buttonVal
  else ret lastButtonVal.

(** Successive runs of the button thread on successive pin readings. *)
Fixpoint buttonPolls (lastButtonVal : Z) (reads : list Z) : Prog Z :=
  match reads with
  | [] => ret lastButtonVal
  | buttonVal :: reads' =>
      l <- buttonHandler lastButtonVal buttonVal ;;
      buttonPolls l reads'
  end.

(** The readings that differ from the reading before them. *)
Fixpoint changes (last : Z) (reads : list Z) : list Z :=
  match reads with
  | [] => []
  | v :: reads' =>
      if v =? last then changes last reads' else v :: changes v reads'
  end.

(** *** [canMsgReceiver]

    What the driver answers in one run of the receive thread: no message,
    or the identifier of [getCanId], whether [readMsgBuf] succeeded, and the
    length and bytes it stored. *)
Inductive RxPoll : Type :=
| NoMessage
| Message (id : Z) (read_ok : bool) (len : Z) (bytes : list Z).

(** The 8-byte buffer [data]: zeroed by [memset], then written from its
    start by [readMsgBuf]. *)
Definition rx_buffer (bytes : list Z) : list Z :=
  bytes ++ repeat 0 (Z.to_nat CAN_MAX_CHAR_IN_MESSAGE - List.length bytes).

Definition canMsgReceiver (rx : RxPoll) : Prog unit :=
  match rx with
  | NoMessage => ret tt
  | Message id read_ok len bytes =>
      let data := rx_buffer bytes in
      if negb read_ok then display CAN_BUS CAN_READ_FAIL
      else processCanPacket id len data
  end.

(** *** [canMsgSender] *)

(** The characters of a [String] that a C function sees through
    [c_str()]: those in front of the first NUL. *)
Fixpoint c_str (s : string) : string :=
  match s with
  | EmptyString => EmptyString
  | String c s' => if char_val c =? 0 then EmptyString else String c (c_str s')
  end.

Fixpoint trim_right (s : string) : string :=
  match s with
  | EmptyString => EmptyString
  | String c s' =>
      match trim_right s' with
      | EmptyString => if is_space c then EmptyString else String c EmptyString
      | r => String c r
      end
  end.

(** [String::trim] of the Arduino core: white space is taken off both
    ends. *)
Definition trim (s : string) : string := trim_right (skip_spaces s).

(** [serial] is what [Serial.readString()] returns when
    [Serial.available() != 0], and [None] when nothing is available.  The
    result is [None] when [strcpy] writes past the end of
    [char msg[CAN_MAX_CHAR_IN_MESSAGE]], which C leaves undefined. *)
Definition canMsgSender (serial : option string) (g : Globals)
  : option (unit * Globals * list Event) :=
  match serial with
  | None => Some (tt, g, [])
  | Some entered =>
      let entered := trim entered in
      let msg := c_str entered in
      if strlen msg + 1 >? CAN_MAX_CHAR_IN_MESSAGE then None
      else Some (sendCanMsg msg g)
  end.

(** *** [setupCan]

    [begins] are the successive results of [mpcCan.begin], [true] for
    [CAN_OK].  The function returns with the results it has not used, or is
    still retrying when they run out.  The [delay] between two attempts
    leaves nothing in the trace. *)
Fixpoint setupCan_loop (begins : list bool) : list Event * option (list bool) :=
  match begins with
  | [] => ([], None)
  | ok :: rest =>
      if ok then ([], Some rest)
      else
        let (out, r) := setupCan_loop rest in
        (SerialPrintln (CAN_BUS ++ FIRST_SECOND_SEG ++ CAN_INIT_FAIL)%string :: out, r)
  end.

Definition setupCan (begins : list bool) : list Event * option (list bool) :=
  let (out, r) := setupCan_loop begins in
  let out := SerialPrintln (CAN_BUS ++ FIRST_SECOND_SEG ++ CAN_INIT)%string :: out in
  match r with
  | None => (out, None)
  | Some rest =>
      (out ++ [SerialPrintln (CAN_BUS ++ FIRST_SECOND_SEG ++ CAN_INIT_RDY)%string],
       Some rest)
  end.

(** *** Vocabulary of the further properties *)


(** A reply the identity prompt takes. *)
Definition user_ordinal (reply : string) : Prop := 0 < atoi reply < 5.

(** A reply the recipient prompt takes as one member. *)
Definition target_ordinal (reply : string) : Prop := 1 <= atoi reply <= 5.

(** The bits the recipient prompt adds for a list of replies. *)
Definition add_targets (destination : Z) (replies : list string) : Z :=
  fold_left (fun d reply => Z.lor d (2 ^ (atoi reply - 1))) replies destination.

(** The data frame of an LED command. *)
Definition led_frame (ledVal : Z) : Frame :=
  mkFrame CAN_DEVICE_CMD CAN_BASE_FRAME_FORMAT 2
          [Device_val DEVICE_TO_COMMAND; to_byte ledVal].

(** A trace with no write to a pin in it. *)
Fixpoint no_pin_write (t : list Event) : bool :=
  match t with
  | [] => true
  | DigitalWrite _ _ :: _ => false
  | _ :: t' => no_pin_write t'
  end.

(** * Properties *)

(** Running the monad: unfold the plumbing, keep the arithmetic. *)
Ltac run_prog :=
  cbv beta iota zeta delta
    [bind get ret emit set_lastId sendMsgBuf displayCanPacket display
     displaySerial negb map app].

(** ** Bit-level facts *)

Section Bits.

Lemma testbit_above (x n i : Z) :
  0 <= x < 2 ^ n -> n <= i -> Z.testbit x i = false.
Proof.
  intros Hx Hi.
  assert (0 <= n) by (destruct (Z.le_gt_cases 0 n) as [|Hneg]; trivial;
                      rewrite Z.pow_neg_r in Hx; lia).
  rewrite <- (Z.mod_small x (2 ^ n)) by assumption.
  apply Z.mod_pow2_bits_high; lia.
Qed.

Lemma land_pow2 (x n : Z) :
  0 <= n -> Z.land x (2 ^ n) = if Z.testbit x n then 2 ^ n else 0.
Proof.
  intros Hn. apply Z.bits_inj'. intros i Hi.
  rewrite Z.land_spec, Z.pow2_bits_eqb by assumption.
  destruct (Z.eqb_spec n i) as [->|Hne].
  - destruct (Z.testbit x i); simpl.
    + now rewrite Z.pow2_bits_true.
    + now rewrite Z.bits_0.
  - rewrite andb_false_r.
    destruct (Z.testbit x n).
    + now rewrite Z.pow2_bits_false.
    + now rewrite Z.bits_0.
Qed.

Lemma lor_below (a b n : Z) :
  0 <= a < 2 ^ n -> 0 <= b < 2 ^ n -> 0 <= Z.lor a b < 2 ^ n.
Proof.
  intros Ha Hb.
  assert (Hn : 0 <= n) by (destruct (Z.le_gt_cases 0 n) as [|Hneg]; trivial;
                           rewrite Z.pow_neg_r in Ha; lia).
  assert (E : Z.lor a b = Z.lor a b mod 2 ^ n).
  { apply Z.bits_inj'. intros i Hi.
    rewrite Z.testbit_mod_pow2 by assumption.
    destruct (Z.ltb_spec i n); simpl; trivial.
    rewrite Z.lor_spec, (testbit_above a n i), (testbit_above b n i); trivial. }
  rewrite E. apply Z.mod_pos_bound. apply Z.pow_pos_nonneg; lia.
Qed.

Lemma land_mask (x : Z) : Z.land x CAN_ZERO_MASK = x mod 32.
Proof. exact (Z.land_ones x 5 ltac:(lia)). Qed.

Lemma land_mask_range (x : Z) : 0 <= Z.land x CAN_ZERO_MASK < 32.
Proof. rewrite land_mask. apply Z.mod_pos_bound. lia. Qed.

Lemma to_byte_small (x : Z) : 0 <= x < 256 -> to_byte x = x.
Proof. intros. unfold to_byte. now apply Z.mod_small. Qed.

Lemma to_uint_small (x : Z) : 0 <= x < 65536 -> to_uint x = x.
Proof. intros. unfold to_uint. now apply Z.mod_small. Qed.

Lemma to_ulong_small (x : Z) : 0 <= x < 4294967296 -> to_ulong x = x.
Proof. intros. unfold to_ulong. now apply Z.mod_small. Qed.

End Bits.

(** ** The fields of an identifier *)

Lemma kind_bit_land (id : Z) :
  Z.land id CAN_CHAT_MASK = 0 <-> kind_bit id = false.
Proof.
  unfold kind_bit, CAN_CHAT_MASK.
  change 0x400 with (2 ^ 10). rewrite land_pow2 by lia.
  destruct (Z.testbit id 10); split; intros; try reflexivity; discriminate.
Qed.

Lemma sender_field_range (id : Z) : 0 <= sender_field id < 32.
Proof. apply land_mask_range. Qed.

Lemma recipient_field_range (id : Z) : 0 <= recipient_field id < 32.
Proof. apply land_mask_range. Qed.

(** What [isChat] computes, field by field. *)
Lemma isChat_fields (g : Globals) (id : Z) :
  isChat g id =
  mkChatInfo (negb (kind_bit id) && (sender_field id >? 0))
             (sender_field id)
             (Z.land (recipient_field id) (Zero_val (me g)) >? 0).
Proof.
  unfold isChat.
  change (Z.land (Z.shiftr id CAN_SRC_SHIFT) CAN_ZERO_MASK) with (sender_field id).
  change (Z.land id CAN_ZERO_MASK) with (recipient_field id).
  rewrite (to_byte_small (sender_field id))
    by (pose proof (sender_field_range id); lia).
  rewrite (to_byte_small (recipient_field id))
    by (pose proof (recipient_field_range id); lia).
  f_equal. f_equal.
  unfold CAN_CHAT_MASK, kind_bit. change 0x400 with (2 ^ 10).
  rewrite land_pow2 by lia.
  unfold to_ulong. rewrite Z.mod_pow2_bits_low, Z.lnot_spec by lia.
  now destruct (Z.testbit id 10).
Qed.

(** ** The identifier of a chat frame *)

Lemma Zero_val_shifted (who : Zero) :
  Z.shiftl (Zero_val who) CAN_SRC_SHIFT = 32 * Zero_val who
  /\ 0 <= Zero_val who < 32.
Proof. destruct who; simpl; split; lia. Qed.

Lemma chat_id_lor (who : Zero) (dest : Z) :
  0 <= dest < 256 ->
  chat_id who dest = Z.lor (Z.shiftl (Zero_val who) CAN_SRC_SHIFT) dest
  /\ 0 <= chat_id who dest < 1024.
Proof.
  intros Hd. unfold chat_id.
  destruct (Zero_val_shifted who) as [Hs Hv].
  rewrite Z.land_0_l, Z.lor_0_l.
  assert (Hb : 0 <= Z.lor (Z.shiftl (Zero_val who) CAN_SRC_SHIFT) dest < 2 ^ 10)
    by (apply lor_below; rewrite ?Hs; lia).
  change (2 ^ 10) with 1024 in Hb.
  rewrite (to_ulong_small (Z.shiftl _ _)) by (rewrite Hs; lia).
  rewrite to_ulong_small by lia.
  split; [reflexivity | exact Hb].
Qed.

Lemma chat_id_kind_bit (who : Zero) (dest : Z) :
  0 <= dest < 256 -> kind_bit (chat_id who dest) = false.
Proof.
  intros Hd. destruct (chat_id_lor who dest Hd) as [_ Hb].
  apply (testbit_above _ 10); [exact Hb | lia].
Qed.

Lemma shiftr_small (r : Z) : 0 <= r < 32 -> Z.shiftr r CAN_SRC_SHIFT = 0.
Proof.
  intros Hr. unfold CAN_SRC_SHIFT. rewrite Z.shiftr_div_pow2 by lia.
  apply Z.div_small. exact Hr.
Qed.

(** The fields of the identifier of a chat from [who] to the recipient set
    [r]. *)
Section ChatIdentifier.

Variables (who : Zero) (r : Z).
Hypothesis Hr : recipient_set r.

Let Hbyte : 0 <= r < 256.
Proof. unfold recipient_set, CAN_ZERO_MASK in Hr. lia. Qed.

Lemma chat_id_sender_field : sender_field (chat_id who r) = Zero_val who.
Proof.
  unfold recipient_set, CAN_ZERO_MASK in Hr.
  destruct (chat_id_lor who r Hbyte) as [-> _].
  unfold sender_field.
  rewrite Z.shiftr_lor, Z.shiftr_shiftl_l by (unfold CAN_SRC_SHIFT; lia).
  rewrite Z.sub_diag, Z.shiftl_0_r, shiftr_small, Z.lor_0_r, land_mask by lia.
  apply Z.mod_small. apply Zero_val_shifted.
Qed.

Lemma chat_id_recipient_field : recipient_field (chat_id who r) = r.
Proof.
  unfold recipient_set, CAN_ZERO_MASK in Hr.
  destruct (chat_id_lor who r Hbyte) as [-> _].
  unfold recipient_field.
  rewrite Z.land_lor_distr_l, !land_mask.
  destruct (Zero_val_shifted who) as [-> _].
  rewrite Z.mul_comm, Z.mod_mul, Z.lor_0_l by lia.
  apply Z.mod_small. lia.
Qed.

(** The two fields do not meet: the disjunction is a sum. *)
Lemma chat_id_sum : chat_id who r = 32 * Zero_val who + r.
Proof.
  pose proof chat_id_sender_field as Hs.
  pose proof chat_id_recipient_field as Hd.
  unfold sender_field, recipient_field in Hs, Hd.
  rewrite land_mask in Hs, Hd.
  unfold CAN_SRC_SHIFT in Hs. rewrite Z.shiftr_div_pow2 in Hs by lia.
  change (2 ^ 5) with 32 in Hs.
  destruct (chat_id_lor who r Hbyte) as [_ Hb].
  rewrite Z.mod_small in Hs
    by (split; [apply Z.div_pos | apply Z.div_lt_upper_bound]; lia).
  rewrite (Z.div_mod (chat_id who r) 32) by lia.
  rewrite Hs, Hd. reflexivity.
Qed.

End ChatIdentifier.

(** ** What the two senders do *)

Lemma length_c_bytes (s : string) : List.length (c_bytes s) = String.length s.
Proof.
  unfold c_bytes. rewrite length_map.
  induction s as [|c s IH]; simpl; [reflexivity | now rewrite IH].
Qed.

Lemma strlen_nonneg (s : string) : 0 <= strlen s.
Proof. unfold strlen. lia. Qed.

(** The guard of [sendCanMsg] rejects: one line on the serial console and
    nothing else. *)
Lemma sendCanMsg_rejected (msg : string) (g : Globals) :
  to_byte (strlen msg) > CAN_MAX_CHAR_IN_MESSAGE ->
  sendCanMsg msg g = (tt, g, [SerialPrintln "ERROR: Msg Len Too Long"]).
Proof.
  intros H. unfold sendCanMsg.
  destruct (Z.gtb_spec (to_byte (strlen msg)) CAN_MAX_CHAR_IN_MESSAGE) as [_|Hle];
    [reflexivity | lia].
Qed.

(** The guard of [sendCanMsg] accepts: the frames, the log and the stored
    identifier. *)
Lemma sendCanMsg_accepted (msg : string) (g : Globals) :
  byte_destination g ->
  to_byte (strlen msg) <= CAN_MAX_CHAR_IN_MESSAGE ->
  let id := chat_id (me g) (destination g) in
  let len := to_byte (strlen msg) in
  let data := firstn (Z.to_nat len) (c_bytes msg) in
  sendCanMsg msg g =
  (tt, mkGlobals (me g) (destination g) id,
   map CanTx (priming (lastId g) id) ++
   [CanTx (mkFrame id CAN_BASE_FRAME_FORMAT len data);
    SerialPrint CHAT_SENT; SerialPrintln msg; LcdPacket id len (c_bytes msg)]).
Proof.
  intros Hg Hlen id len data.
  destruct (chat_id_lor (me g) (destination g) Hg) as [_ Hb]. fold id in Hb.
  unfold sendCanMsg. fold len.
  destruct (Z.gtb_spec len CAN_MAX_CHAR_IN_MESSAGE) as [Hgt|_]; [lia|].
  cbv beta iota zeta delta [bind get].
  change (to_ulong (Z.lor (to_ulong (Z.lor (Z.land 0 CAN_ID_CHAT)
                                           (Z.shiftl (Zero_val (me g)) CAN_SRC_SHIFT)))
                          (destination g))) with id.
  unfold priming.
  destruct (Z.eqb_spec (lastId g) id) as [E|NE];
    run_prog.
  - destruct g as [m d l]. cbn [me destination lastId] in *. subst l. reflexivity.
  - rewrite to_uint_small by lia. reflexivity.
Qed.

Lemma canLedCmdSender_spec (ledVal : Z) (g : Globals) :
  canLedCmdSender ledVal g =
  (tt, mkGlobals (me g) (destination g) CAN_DEVICE_CMD,
   map CanTx (priming (lastId g) CAN_DEVICE_CMD) ++
   [CanTx (mkFrame CAN_DEVICE_CMD CAN_BASE_FRAME_FORMAT 2
                   [Device_val DEVICE_TO_COMMAND; to_byte ledVal]);
    SerialPrintln (DEV_TO_CMD_NAME ++ ": " ++
                   (if (ledVal =? HIGH)%Z then LED_ON_MSG else LED_OFF_MSG))%string]).
Proof.
  unfold canLedCmdSender, priming.
  cbv beta iota zeta delta [bind get].
  destruct (Z.eqb_spec (lastId g) CAN_DEVICE_CMD) as [E|NE];
    destruct (ledVal =? HIGH);
    run_prog;
    try reflexivity;
    destruct g as [m d l]; cbn [me destination lastId] in *; subst l; reflexivity.
Qed.

(** ** Traces and frames *)

Lemma frames_app (t u : list Event) : frames (t ++ u) = frames t ++ frames u.
Proof.
  induction t as [|e t IH]; simpl; [reflexivity|].
  destruct e; simpl; now rewrite IH.
Qed.

Lemma frames_CanTx (fs : list Frame) : frames (map CanTx fs) = fs.
Proof. induction fs as [|f fs IH]; simpl; [reflexivity | now rewrite IH]. Qed.

Lemma last_frame_snoc (fs : list Frame) (f : Frame) (t : list Event) :
  frames t = fs ++ [f] -> last_frame t = Some f.
Proof.
  intros E. unfold last_frame. rewrite E, rev_app_distr. reflexivity.
Qed.

Lemma firstn_c_bytes (s : string) :
  strlen s < 256 ->
  firstn (Z.to_nat (to_byte (strlen s))) (c_bytes s) = c_bytes s.
Proof.
  intros H. rewrite to_byte_small by (pose proof (strlen_nonneg s); lia).
  unfold strlen. rewrite Nat2Z.id, <- length_c_bytes. apply firstn_all.
Qed.

(** The frames of an accepted chat message. *)
Lemma sendCanMsg_frames (msg : string) (g : Globals) :
  byte_destination g ->
  to_byte (strlen msg) <= CAN_MAX_CHAR_IN_MESSAGE ->
  let id := chat_id (me g) (destination g) in
  let len := to_byte (strlen msg) in
  frames (trace_of (sendCanMsg msg g)) =
  priming (lastId g) id ++
  [mkFrame id CAN_BASE_FRAME_FORMAT len (firstn (Z.to_nat len) (c_bytes msg))].
Proof.
  intros Hg Hlen id len.
  rewrite (sendCanMsg_accepted msg g Hg Hlen).
  unfold trace_of. cbn [snd].
  rewrite frames_app, frames_CanTx. reflexivity.
Qed.

Lemma canLedCmdSender_frames (ledVal : Z) (g : Globals) :
  frames (trace_of (canLedCmdSender ledVal g)) =
  priming (lastId g) CAN_DEVICE_CMD ++
  [mkFrame CAN_DEVICE_CMD CAN_BASE_FRAME_FORMAT 2
           [Device_val DEVICE_TO_COMMAND; to_byte ledVal]].
Proof.
  rewrite canLedCmdSender_spec. unfold trace_of. cbn [snd].
  rewrite frames_app, frames_CanTx. reflexivity.
Qed.

Lemma recipient_set_byte (r : Z) : recipient_set r -> 0 <= r < 256.
Proof. unfold recipient_set, CAN_ZERO_MASK. lia. Qed.

(** ** Chat frames: encoding and decoding *)

(** C1.  Chat round trip.  A member [i] other than [NONE] sends the text [t]
    of at most 8 characters (the empty text included) to the recipient set
    [r]: the data frame, which is the last frame of the transmission, carries
    the bytes of [t], and [isChat] on its identifier, whoever the receiver
    is, answers that it is a chat and extracts [i] as the sender. *)
Theorem chat_round_trip (i : Zero) (r last : Z) (t : string) (rx : Globals) :
  i <> NONE ->
  recipient_set r ->
  strlen t <= CAN_MAX_CHAR_IN_MESSAGE ->
  exists f : Frame,
    last_frame (trace_of (sendCanMsg t (mkGlobals i r last))) = Some f
    /\ dlc f = strlen t
    /\ payload f = c_bytes t
    /\ is_chat (isChat rx (can_id f)) = true
    /\ sender (isChat rx (can_id f)) = Zero_val i.
Proof.
  intros Hi Hr Ht.
  pose proof (strlen_nonneg t) as H0.
  unfold CAN_MAX_CHAR_IN_MESSAGE in Ht.
  assert (Hlen : to_byte (strlen t) = strlen t) by (apply to_byte_small; lia).
  set (g := mkGlobals i r last).
  assert (Hg : byte_destination g) by (apply recipient_set_byte, Hr).
  exists (mkFrame (chat_id i r) CAN_BASE_FRAME_FORMAT (strlen t) (c_bytes t)).
  split.
  - apply (last_frame_snoc (priming last (chat_id i r))).
    rewrite (sendCanMsg_frames t g Hg)
      by (rewrite Hlen; unfold CAN_MAX_CHAR_IN_MESSAGE; lia).
    cbn [me destination lastId g].
    rewrite firstn_c_bytes, Hlen by lia. reflexivity.
  - cbn [dlc payload can_id]. rewrite isChat_fields. cbn [is_chat sender].
    rewrite chat_id_sender_field, chat_id_kind_bit
      by (trivial; apply recipient_set_byte, Hr).
    repeat split; try reflexivity.
    destruct i; try reflexivity. contradiction.
Qed.

Lemma chat_round_trip_witness :
  exists f : Frame,
    last_frame (trace_of (sendCanMsg "hi" (mkGlobals RH 12 0))) = Some f
    /\ dlc f = strlen "hi"
    /\ payload f = c_bytes "hi"
    /\ is_chat (isChat (mkGlobals WM 0 0) (can_id f)) = true
    /\ sender (isChat (mkGlobals WM 0 0) (can_id f)) = Zero_val RH.
Proof.
  apply (chat_round_trip RH 12 0 "hi" (mkGlobals WM 0 0)).
  - discriminate.
  - unfold recipient_set, CAN_ZERO_MASK. lia.
  - vm_compute. discriminate.
Defined.

Lemma cstr_of_c_bytes (t : string) :
  no_nul t = true -> cstr_of_bytes (c_bytes t) = t.
Proof.
  induction t as [|c t IH]; cbn [no_nul]; intros H; [reflexivity|].
  apply andb_true_iff in H. destruct H as [Hc Ht].
  change (c_bytes (String c t)) with (char_val c :: c_bytes t).
  cbn [cstr_of_bytes]. apply negb_true_iff in Hc. rewrite Hc, (IH Ht).
  unfold ascii_of_byte, char_val. now rewrite N2Z.id, ascii_N_embedding.
Qed.

Lemma displayChatMessage_name (i : Zero) (len : Z) (data : list Z) (g : Globals) :
  displayChatMessage (Zero_val i) len data g
  = (tt, g, [SerialPrintln (Zero_name i ++ ": "
                            ++ cstr_of_bytes (firstn (Z.to_nat len) data))%string]).
Proof. destruct i; reflexivity. Qed.

(** The round trip as the receiving operator sees it: a member of the
    recipient set reads the sender's name and the text on the serial
    console, whatever follows the text in the receive buffer. *)
Lemma chat_shown (i local : Zero) (r d last : Z) (t : string) (pad : list Z) :
  i <> NONE ->
  recipient_set r ->
  no_nul t = true ->
  Z.land r (Zero_val local) <> 0 ->
  let id := chat_id i r in
  let data := c_bytes t ++ pad in
  processCanPacket id (strlen t) data (mkGlobals local d last)
  = (tt, mkGlobals local d last,
     [SerialPrintln (Zero_name i ++ ": " ++ t)%string;
      LcdPacket id (strlen t) data]).
Proof.
  intros Hi Hr Ht Hmem id data.
  unfold processCanPacket. cbv beta iota zeta delta [bind get].
  rewrite isChat_fields. cbn [is_chat forMe sender me]. subst id.
  rewrite chat_id_sender_field, chat_id_recipient_field, chat_id_kind_bit
    by (trivial; apply recipient_set_byte, Hr).
  assert (Hs : (Zero_val i >? 0) = true) by (destruct i; trivial; contradiction).
  assert (Hf : (Z.land r (Zero_val local) >? 0) = true).
  { assert (0 <= Z.land r (Zero_val local))
      by (apply Z.land_nonneg; left; apply Hr).
    destruct (Z.gtb_spec (Z.land r (Zero_val local)) 0); [reflexivity | lia]. }
  rewrite Hs, Hf. cbn [negb andb].
  rewrite displayChatMessage_name.
  assert (Hd : firstn (Z.to_nat (strlen t)) data = c_bytes t).
  { unfold strlen, data. rewrite Nat2Z.id, <- length_c_bytes.
    rewrite <- (Nat.add_0_r (List.length (c_bytes t))), firstn_app_2.
    apply app_nil_r. }
  rewrite Hd, (cstr_of_c_bytes t Ht). reflexivity.
Qed.

(** C2.  Layout of a chat identifier.  Every frame [sendCanMsg] transmits
    for an accepted message has an identifier below 2^11 with the kind bit
    0x400 clear, the sender's bit shifted left by 5 into bits 5-9 and the
    recipient set in bits 0-4, and at least one frame goes out; for sender
    RH and recipients WM and EH the sender field is 0x02 and the recipient
    field 0x0C. *)
Theorem chat_id_layout :
  (forall (who : Zero) (r last : Z) (msg : string),
      recipient_set r ->
      to_byte (strlen msg) <= CAN_MAX_CHAR_IN_MESSAGE ->
      let fs := frames (trace_of (sendCanMsg msg (mkGlobals who r last))) in
      fs <> []
      /\ Forall (fun f =>
                   can_id f = Z.lor (Z.shiftl (Zero_val who) 5) r
                   /\ 0 <= can_id f < 2 ^ 11
                   /\ Z.land (can_id f) 0x400 = 0
                   /\ sender_field (can_id f) = Zero_val who
                   /\ recipient_field (can_id f) = r) fs)
  /\ (let fs := frames (trace_of (sendCanMsg "hi"
                  (mkGlobals RH (Z.lor (Zero_val WM) (Zero_val EH)) 0))) in
      Forall (fun f =>
                Z.land (can_id f) 0x400 = 0
                /\ sender_field (can_id f) = 0x02
                /\ recipient_field (can_id f) = 0x0C) fs
      /\ last fs (mkFrame 0 0 0 []) = mkFrame 0x4C 0 2 (c_bytes "hi")).
Proof.
  split.
  - intros who r last msg Hr Hlen fs.
    pose proof (recipient_set_byte r Hr) as Hb.
    assert (Hid : let id := chat_id who r in
                  id = Z.lor (Z.shiftl (Zero_val who) 5) r
                  /\ 0 <= id < 2 ^ 11
                  /\ Z.land id 0x400 = 0
                  /\ sender_field id = Zero_val who
                  /\ recipient_field id = r).
    { destruct (chat_id_lor who r Hb) as [E B].
      repeat split; try (change (2 ^ 11) with 2048; lia).
      - exact E.
      - apply kind_bit_land, chat_id_kind_bit, Hb.
      - apply chat_id_sender_field, Hr.
      - apply chat_id_recipient_field, Hr. }
    subst fs. rewrite (sendCanMsg_frames msg (mkGlobals who r last) Hb Hlen).
    cbn [me destination lastId]. split.
    + intros E. apply app_eq_nil in E. destruct E as [_ E]. discriminate.
    + apply Forall_app. split.
      * unfold priming. destruct (last =? chat_id who r); constructor;
          [exact Hid | constructor].
      * constructor; [exact Hid | constructor].
  - vm_compute. repeat constructor.
Qed.

Lemma chat_id_layout_witness :
  let fs := frames (trace_of (sendCanMsg "12345678" (mkGlobals DC 31 0))) in
  fs <> []
  /\ Forall (fun f =>
               can_id f = Z.lor (Z.shiftl (Zero_val DC) 5) 31
               /\ 0 <= can_id f < 2 ^ 11
               /\ Z.land (can_id f) 0x400 = 0
               /\ sender_field (can_id f) = Zero_val DC
               /\ recipient_field (can_id f) = 31) fs.
Proof.
  apply (proj1 chat_id_layout DC 31 0 "12345678").
  - unfold recipient_set, CAN_ZERO_MASK. lia.
  - vm_compute. discriminate.
Defined.

(** ** The dispatcher *)

(** C10.  [isChat] does not check that the sender field is one member: for
    every identifier with the kind bit 0x400 clear and a sender field other
    than zero it answers true and reports the field as it is.  The field
    0x03, which is JZ and RH at once and the value of no member, is
    reported as sender 3. *)
Theorem isChat_reports_raw_sender :
  (forall (g : Globals) (id : Z),
      Z.land id CAN_CHAT_MASK = 0 ->
      sender_field id <> 0 ->
      is_chat (isChat g id) = true /\ sender (isChat g id) = sender_field id)
  /\ (forall g : Globals,
         is_chat (isChat g 0x60) = true /\ sender (isChat g 0x60) = 0x03)
  /\ (forall z : Zero, Zero_val z <> 0x03).
Proof.
  split; [|split].
  - intros g id Hk Hs. rewrite isChat_fields. cbn [is_chat sender].
    apply kind_bit_land in Hk. rewrite Hk.
    pose proof (sender_field_range id) as Hr.
    destruct (Z.gtb_spec (sender_field id) 0); [split; reflexivity | lia].
  - intros g. split; reflexivity.
  - intros z. destruct z; discriminate.
Qed.

Lemma isChat_reports_raw_sender_witness :
  is_chat (isChat initial 0x3E5) = true
  /\ sender (isChat initial 0x3E5) = sender_field 0x3E5.
Proof.
  apply (proj1 isChat_reports_raw_sender initial 0x3E5).
  - reflexivity.
  - vm_compute. discriminate.
Defined.

Lemma processLedCmd_spec (len : Z) (data : list Z) (g : Globals) :
  processLedCmd len data g =
  (tt, g,
   if (VAL_INDEX + 1 <=? len) && (at_index data DEV_INDEX =? Device_val MY_DEVICE)
   then [DigitalWrite LED_PIN (at_index data VAL_INDEX)] else []).
Proof.
  unfold processLedCmd, isMyLed.
  change (Device_val MY_DEVICE) with 1.
  destruct (Z.ltb_spec len (VAL_INDEX + 1)), (Z.leb_spec (VAL_INDEX + 1) len);
    try lia; cbn [andb]; try reflexivity.
  destruct (at_index data DEV_INDEX =? 1); reflexivity.
Qed.

(** C4.  A zero sender field is never a chat.  Whatever the kind bit says,
    [isChat] answers false on an identifier whose bits 5-9 are clear, and
    [processCanPacket] hands the frame to [processLedCmd]. *)
Theorem zero_sender_is_command (g : Globals) (id len : Z) (data : list Z) :
  sender_field id = 0 ->
  is_chat (isChat g id) = false
  /\ processCanPacket id len data g
     = (processLedCmd len data ;; displayCanPacket id len data) g.
Proof.
  intros Hs.
  assert (Hc : is_chat (isChat g id) = false).
  { rewrite isChat_fields. cbn [is_chat]. rewrite Hs. apply andb_false_r. }
  split; [exact Hc|].
  unfold processCanPacket.
  cbv beta iota zeta delta [bind get]. rewrite Hc, processLedCmd_spec.
  reflexivity.
Qed.

(** The identifier 0x0C has the kind bit clear, as a chat frame has, and a
    zero sender: its payload is obeyed as an LED command. *)
Lemma zero_sender_is_command_witness :
  is_chat (isChat (mkGlobals WM 0 0) 0x0C) = false
  /\ processCanPacket 0x0C 2 [1; 1] (mkGlobals WM 0 0)
     = (processLedCmd 2 [1; 1] ;; displayCanPacket 0x0C 2 [1; 1])
         (mkGlobals WM 0 0).
Proof.
  apply (zero_sender_is_command (mkGlobals WM 0 0) 0x0C 2 [1; 1]).
  reflexivity.
Defined.

(** C5.  The command path.  With at least two payload bytes [isMyLed] reads
    the device from byte 0 and the value from byte 1, and [processLedCmd]
    writes that value to the LED pin exactly when byte 0 is the local
    device; with fewer than two bytes nothing is written.  A frame that is
    not a chat reaches this path through [processCanPacket].  The local
    device being MEGA, a command for UNO is never acted on. *)
Theorem led_command_filter :
  (forall (len : Z) (data : list Z) (g : Globals),
      2 <= len ->
      isMyLed len data
      = (at_index data 0 =? Device_val MY_DEVICE, Some (at_index data 1))
      /\ processLedCmd len data g
         = (tt, g, if at_index data 0 =? Device_val MY_DEVICE
                   then [DigitalWrite LED_PIN (at_index data 1)] else []))
  /\ (forall (len : Z) (data : list Z) (g : Globals),
         len < 2 ->
         isMyLed len data = (false, None)
         /\ processLedCmd len data g = (tt, g, []))
  /\ (forall (id len : Z) (data : list Z) (g : Globals),
         is_chat (isChat g id) = false ->
         processCanPacket id len data g
         = (tt, g, trace_of (processLedCmd len data g) ++ [LcdPacket id len data]))
  /\ (MY_DEVICE = MEGA
      /\ forall (len : Z) (data : list Z) (g : Globals),
         at_index data 0 = Device_val UNO ->
         processLedCmd len data g = (tt, g, [])).
Proof.
  split; [|split; [|split; [|split]]].
  - intros len data g Hlen. split.
    + unfold isMyLed, VAL_INDEX, DEV_INDEX.
      destruct (Z.ltb_spec len (1 + 1)); [lia | reflexivity].
    + rewrite processLedCmd_spec. unfold VAL_INDEX, DEV_INDEX.
      destruct (Z.leb_spec (1 + 1) len); [reflexivity | lia].
  - intros len data g Hlen. split.
    + unfold isMyLed, VAL_INDEX.
      destruct (Z.ltb_spec len (1 + 1)); [reflexivity | lia].
    + rewrite processLedCmd_spec. unfold VAL_INDEX.
      destruct (Z.leb_spec (1 + 1) len); [lia | reflexivity].
  - intros id len data g Hc. unfold processCanPacket.
    cbv beta iota zeta delta [bind get]. rewrite Hc.
    rewrite processLedCmd_spec. reflexivity.
  - reflexivity.
  - intros len data g Hd. rewrite processLedCmd_spec.
    unfold DEV_INDEX. rewrite Hd. simpl. rewrite andb_false_r. reflexivity.
Qed.

(** The payload [0; 1] of the command "UNO, LED on", and the payload [1; 1]
    addressed to this board. *)
Lemma led_command_filter_witness :
  processLedCmd 2 [0; 1] initial = (tt, initial, [])
  /\ processLedCmd 2 [1; 1] initial = (tt, initial, [DigitalWrite 24 1])
  /\ processLedCmd 1 [1] initial = (tt, initial, [])
  /\ processCanPacket 0x400 2 [1; 0] initial
     = (tt, initial, [DigitalWrite 24 0; LcdPacket 0x400 2 [1; 0]]).
Proof.
  destruct led_command_filter as (Hlong & Hshort & Hroute & _ & Huno).
  split; [|split; [|split]].
  - apply (Huno 2 [0; 1] initial). reflexivity.
  - apply (proj2 (Hlong 2 [1; 1] initial ltac:(lia))).
  - apply (proj2 (Hshort 1 [1] initial ltac:(lia))).
  - apply (Hroute 0x400 2 [1; 0] initial). reflexivity.
Defined.

(** ** Recipients *)

Lemma broadcast_minus_self_val (who : Zero) :
  broadcast_minus_self who = CAN_ZERO_MASK - Zero_val who.
Proof. destruct who; reflexivity. Qed.

(** Picking "Everyone" (entry 6) stores the broadcast set and leaves the
    prompt. *)
Lemma setupTargets_everyone (g : Globals) (rest : list string) :
  snd (setupTargets g ("6" :: rest))
  = Finished (mkGlobals (me g) (broadcast_minus_self (me g)) (lastId g)) rest.
Proof. reflexivity. Qed.

(** C3 as stated fails at the local identity [NONE], the value of [me] on a
    board that was given no identity: it is another identity than the
    broadcasting RH, and the broadcast is not for it. *)
Lemma forMe_broadcast_none :
  NONE <> RH
  /\ recipient_field (chat_id RH (broadcast_minus_self RH)) = broadcast_minus_self RH
  /\ forMe (isChat (mkGlobals NONE 0 0) (chat_id RH (broadcast_minus_self RH)))
     = false.
Proof. repeat split. discriminate. Qed.

(** C3, amended.  [forMe] is true exactly when the recipient field and the
    local member's bit meet.  On an identifier whose recipient field is the
    broadcast set built for [who] (the five member bits without the bit of
    [who], which is what [setupTargets] stores for "Everyone"), [forMe] is
    true at every local member other than [who] and other than [NONE], and
    false at [who]. *)
Theorem forMe_membership :
  (forall (g : Globals) (id : Z),
      forMe (isChat g id) = true
      <-> Z.land (recipient_field id) (Zero_val (me g)) <> 0)
  /\ (forall (who local : Zero) (d last id : Z),
         recipient_field id = broadcast_minus_self who ->
         (local <> NONE -> local <> who ->
          forMe (isChat (mkGlobals local d last) id) = true)
         /\ forMe (isChat (mkGlobals who d last) id) = false)
  /\ (forall (g : Globals) (rest : list string),
         snd (setupTargets g ("6" :: rest))
         = Finished (mkGlobals (me g) (broadcast_minus_self (me g)) (lastId g))
                    rest).
Proof.
  split; [|split].
  - intros g id. rewrite isChat_fields. cbn [forMe].
    assert (0 <= Z.land (recipient_field id) (Zero_val (me g))).
    { apply Z.land_nonneg. left. apply recipient_field_range. }
    destruct (Z.gtb_spec (Z.land (recipient_field id) (Zero_val (me g))) 0);
      split; intros; try reflexivity; try discriminate; lia.
  - intros who local d last id Hid. rewrite !isChat_fields. cbn [forMe me].
    rewrite Hid. split.
    + intros Hnone Hwho.
      destruct who, local; try reflexivity; contradiction.
    + destruct who; reflexivity.
  - exact setupTargets_everyone.
Qed.

Lemma forMe_membership_witness :
  (forMe (isChat (mkGlobals WM 0 0) 0x5D) = true)
  /\ forMe (isChat (mkGlobals RH 0 0) 0x5D) = false.
Proof.
  destruct forMe_membership as (_ & Hb & _).
  destruct (Hb RH WM 0 0 0x5D) as [Hother Hself]; [reflexivity|].
  split.
  - apply Hother; discriminate.
  - exact (proj2 (Hb RH RH 0 0 0x5D eq_refl)).
Defined.

(** ** The stored identifier *)

Lemma last_frame_app (t u : list Event) :
  last_frame (t ++ u)
  = match last_frame u with
    | Some f => Some f
    | None => last_frame t
    end.
Proof.
  unfold last_frame. rewrite frames_app, rev_app_distr.
  destruct (rev (frames u)); reflexivity.
Qed.

Lemma processCanPacket_quiet (id len : Z) (data : list Z) (g : Globals) :
  globals_of (processCanPacket id len data g) = g
  /\ frames (trace_of (processCanPacket id len data g)) = [].
Proof.
  unfold processCanPacket. cbv beta iota zeta delta [bind get].
  destruct (is_chat (isChat g id)).
  - destruct (forMe (isChat g id)); split; reflexivity.
  - rewrite processLedCmd_spec.
    destruct ((VAL_INDEX + 1 <=? len)
              && (at_index data DEV_INDEX =? Device_val MY_DEVICE));
      split; reflexivity.
Qed.

Lemma call_session (c : Call) (g : Globals) :
  me (globals_of (call c g)) = me g
  /\ destination (globals_of (call c g)) = destination g.
Proof.
  destruct c as [msg|ledVal|id len data]; cbn [call].
  - unfold sendCanMsg.
    destruct (to_byte (strlen msg) >? CAN_MAX_CHAR_IN_MESSAGE);
      [split; reflexivity|].
    cbv beta iota zeta delta [bind get].
    match goal with |- context [negb ?b] => destruct b end; split; reflexivity.
  - rewrite canLedCmdSender_spec. split; reflexivity.
  - rewrite (proj1 (processCanPacket_quiet id len data g)). split; reflexivity.
Qed.

Lemma call_tracks (c : Call) (g : Globals) :
  byte_destination g -> lastId_tracks g (call c g).
Proof.
  intros Hg. unfold lastId_tracks.
  destruct c as [msg|ledVal|id len data]; cbn [call].
  - destruct (Z.le_gt_cases (to_byte (strlen msg)) CAN_MAX_CHAR_IN_MESSAGE)
      as [Hle|Hgt].
    + rewrite (sendCanMsg_accepted msg g Hg Hle).
      unfold globals_of, trace_of. cbn [fst snd lastId].
      rewrite last_frame_app.
      reflexivity.
    + rewrite sendCanMsg_rejected by lia. reflexivity.
  - rewrite canLedCmdSender_spec.
    unfold globals_of, trace_of. cbn [fst snd lastId].
    rewrite last_frame_app. reflexivity.
  - destruct (processCanPacket_quiet id len data g) as [Eg Ef].
    rewrite Eg. unfold last_frame. rewrite Ef. reflexivity.
Qed.

Lemma run_cons (c : Call) (cs : list Call) (g : Globals) :
  globals_of (run (c :: cs) g) = globals_of (run cs (globals_of (call c g)))
  /\ trace_of (run (c :: cs) g)
     = trace_of (call c g) ++ trace_of (run cs (globals_of (call c g))).
Proof.
  cbn [run]. unfold bind, globals_of, trace_of.
  destruct (call c g) as [[u g1] o1]. cbn [fst snd].
  destruct (run cs g1) as [[u' g2] o2]. split; reflexivity.
Qed.

Lemma run_tracks (cs : list Call) :
  forall g : Globals, byte_destination g -> lastId_tracks g (run cs g).
Proof.
  induction cs as [|c cs IH]; intros g Hg.
  - reflexivity.
  - unfold lastId_tracks.
    destruct (run_cons c cs g) as [-> ->].
    rewrite last_frame_app.
    assert (Hg1 : byte_destination (globals_of (call c g))).
    { unfold byte_destination. rewrite (proj2 (call_session c g)). exact Hg. }
    rewrite (IH _ Hg1).
    destruct (last_frame (trace_of (run cs (globals_of (call c g)))));
      [reflexivity | apply call_tracks, Hg].
Qed.

(** C6.  The priming frame.  An accepted chat message and every LED command
    transmit the data frame, preceded by exactly one frame of no payload
    under the same identifier when that identifier differs from [lastId] and
    by nothing when it is equal, and leave the identifier in [lastId].
    Through any sequence of calls of the main loop, once a frame has been
    transmitted [lastId] is the identifier of the frame transmitted last. *)
Theorem priming_frame_invariant :
  (forall (msg : string) (g : Globals),
      byte_destination g ->
      to_byte (strlen msg) <= CAN_MAX_CHAR_IN_MESSAGE ->
      let id := chat_id (me g) (destination g) in
      let len := to_byte (strlen msg) in
      frames (trace_of (sendCanMsg msg g))
      = (if lastId g =? id then [] else [mkFrame id 0 0 []])
        ++ [mkFrame id 0 len (firstn (Z.to_nat len) (c_bytes msg))]
      /\ lastId (globals_of (sendCanMsg msg g)) = id)
  /\ (forall (ledVal : Z) (g : Globals),
         let id := CAN_DEVICE_CMD in
         frames (trace_of (canLedCmdSender ledVal g))
         = (if lastId g =? id then [] else [mkFrame id 0 0 []])
           ++ [mkFrame id 0 2 [Device_val DEVICE_TO_COMMAND; to_byte ledVal]]
         /\ lastId (globals_of (canLedCmdSender ledVal g)) = id)
  /\ (forall (cs : list Call) (g : Globals),
         byte_destination g ->
         forall f : Frame,
           last_frame (trace_of (run cs g)) = Some f ->
           lastId (globals_of (run cs g)) = can_id f).
Proof.
  split; [|split].
  - intros msg g Hg Hlen id len. split.
    + apply (sendCanMsg_frames msg g Hg Hlen).
    + rewrite (sendCanMsg_accepted msg g Hg Hlen). reflexivity.
  - intros ledVal g id. split.
    + apply canLedCmdSender_frames.
    + rewrite canLedCmdSender_spec. reflexivity.
  - intros cs g Hg f Hf.
    pose proof (run_tracks cs g Hg) as H. unfold lastId_tracks in H.
    rewrite Hf in H. exact H.
Qed.

(** A chat, an LED command, a chat to the same recipients and a second
    chat: three priming frames, and [lastId] is the last identifier. *)
Lemma priming_frame_invariant_witness :
  let cs := [CallSendCanMsg "hi"; CallCanLedCmdSender 1;
             CallSendCanMsg "yo"; CallSendCanMsg "ok"] in
  let g := mkGlobals RH 12 0 in
  frames (trace_of (run cs g))
  = [mkFrame 76 0 0 []; mkFrame 76 0 2 [104; 105];
     mkFrame 1024 0 0 []; mkFrame 1024 0 2 [0; 1];
     mkFrame 76 0 0 []; mkFrame 76 0 2 [121; 111];
     mkFrame 76 0 2 [111; 107]]
  /\ lastId (globals_of (run cs g)) = 76.
Proof.
  intros cs g. split; [reflexivity|].
  apply (proj2 (proj2 priming_frame_invariant) cs g
           ltac:(unfold byte_destination; simpl; lia)
           (mkFrame 76 0 2 [111; 107])).
  reflexivity.
Defined.

(** ** LED commands on the bus *)

Lemma sendCanMsg_frames_rejected (msg : string) (g : Globals) :
  to_byte (strlen msg) > CAN_MAX_CHAR_IN_MESSAGE ->
  frames (trace_of (sendCanMsg msg g)) = [].
Proof. intros H. rewrite sendCanMsg_rejected by exact H. reflexivity. Qed.

Lemma Forall_priming (P : Frame -> Prop) (last id : Z) :
  P (mkFrame id CAN_BASE_FRAME_FORMAT 0 []) -> Forall P (priming last id).
Proof.
  intros H. unfold priming. destruct (last =? id); constructor; trivial.
Qed.

(** C8.  Encoding of an LED command.  Every frame [canLedCmdSender]
    transmits carries the identifier 0x400: the kind bit and no other bit.
    No frame of [sendCanMsg] carries it, whoever the sender and whatever
    byte is stored as the recipients.  The data frame of the command has
    the two bytes device-to-command and LED value. *)
Theorem led_command_encoding :
  (forall (ledVal : Z) (g : Globals),
      Forall (fun f => can_id f = 0x400)
             (frames (trace_of (canLedCmdSender ledVal g)))
      /\ last_frame (trace_of (canLedCmdSender ledVal g))
         = Some (mkFrame 0x400 0 2 [Device_val DEVICE_TO_COMMAND; to_byte ledVal]))
  /\ (forall ledVal : Z, 0 <= ledVal < 256 -> to_byte ledVal = ledVal)
  /\ (kind_bit 0x400 = true /\ Z.land 0x400 0x3ff = 0)
  /\ (forall (who : Zero) (d : Z), 0 <= d < 256 -> chat_id who d <> 0x400)
  /\ (forall (msg : string) (g : Globals),
         byte_destination g ->
         Forall (fun f => can_id f <> 0x400)
                (frames (trace_of (sendCanMsg msg g)))).
Proof.
  assert (Hne : forall who d, 0 <= d < 256 -> chat_id who d <> 0x400).
  { intros who d Hd E. destruct (chat_id_lor who d Hd) as [_ Hb]. lia. }
  split; [|split; [|split; [|split]]].
  - intros ledVal g. rewrite canLedCmdSender_frames. split.
    + apply Forall_app. split; [now apply Forall_priming|].
      constructor; [reflexivity | constructor].
    + apply (last_frame_snoc (priming (lastId g) CAN_DEVICE_CMD)).
      apply canLedCmdSender_frames.
  - exact to_byte_small.
  - split; reflexivity.
  - exact Hne.
  - intros msg g Hg.
    destruct (Z.le_gt_cases (to_byte (strlen msg)) CAN_MAX_CHAR_IN_MESSAGE)
      as [Hle|Hgt].
    + rewrite (sendCanMsg_frames msg g Hg Hle).
      apply Forall_app. split; [apply Forall_priming; now apply Hne|].
      constructor; [now apply Hne | constructor].
    + rewrite sendCanMsg_frames_rejected by lia. constructor.
Qed.

Lemma led_command_encoding_witness :
  chat_id DC 255 <> 0x400
  /\ Forall (fun f => can_id f <> 0x400)
            (frames (trace_of (sendCanMsg "hello" (mkGlobals DC 255 0x400))))
  /\ to_byte HIGH = HIGH.
Proof.
  destruct led_command_encoding as (_ & Hval & _ & Hne & Hchat).
  split; [|split].
  - apply (Hne DC 255). lia.
  - apply (Hchat "hello" (mkGlobals DC 255 0x400)).
    unfold byte_destination. simpl. lia.
  - apply (Hval HIGH). unfold HIGH. lia.
Defined.

(** ** The length guard of [sendCanMsg] *)

(** Up to 255 characters the guard compares the length itself: the message
    is turned down exactly when it has more than 8 characters, and then the
    only effect is the error line. *)
Lemma too_long_guard_below_256 (msg : string) (g : Globals) :
  byte_destination g ->
  strlen msg < 256 ->
  (strlen msg > CAN_MAX_CHAR_IN_MESSAGE ->
   sendCanMsg msg g = (tt, g, [SerialPrintln "ERROR: Msg Len Too Long"]))
  /\ (strlen msg <= CAN_MAX_CHAR_IN_MESSAGE ->
      last_frame (trace_of (sendCanMsg msg g))
      = Some (mkFrame (chat_id (me g) (destination g)) 0 (strlen msg)
                      (c_bytes msg))).
Proof.
  intros Hg Hs. pose proof (strlen_nonneg msg) as H0.
  assert (E : to_byte (strlen msg) = strlen msg) by (apply to_byte_small; lia).
  split; intros H.
  - apply sendCanMsg_rejected. rewrite E. exact H.
  - apply (last_frame_snoc (priming (lastId g) (chat_id (me g) (destination g)))).
    rewrite (sendCanMsg_frames msg g Hg) by (rewrite E; exact H).
    rewrite firstn_c_bytes, E by exact Hs. reflexivity.
Qed.

(** C7, at the input where the code departs from it.  [len] is a [byte]:
    the length of a text of 256 characters is stored as 0, the guard lets
    the text through, and a priming frame and a data frame of no payload go
    out while [lastId] changes.  Texts of 8 and of 9 characters are on the
    two sides of the guard. *)
Theorem sendCanMsg_length_wraps :
  strlen (letters 256) = 256
  /\ to_byte (strlen (letters 256)) = 0
  /\ sendCanMsg (letters 256) (mkGlobals RH 12 0)
     = (tt, mkGlobals RH 12 0x4C,
        [CanTx (mkFrame 0x4C 0 0 []); CanTx (mkFrame 0x4C 0 0 []);
         SerialPrint "SENT: "; SerialPrintln (letters 256);
         LcdPacket 0x4C 0 (c_bytes (letters 256))])
  /\ frames (trace_of (sendCanMsg (letters 8) (mkGlobals RH 12 0x4C)))
     = [mkFrame 0x4C 0 8 (c_bytes (letters 8))]
  /\ sendCanMsg (letters 9) (mkGlobals RH 12 0)
     = (tt, mkGlobals RH 12 0, [SerialPrintln "ERROR: Msg Len Too Long"]).
Proof.
  split; [|split; [|split; [|split]]]; vm_compute; reflexivity.
Qed.

(** ** The two prompts of [setup] *)

Lemma setupUser_loop_range (numMembers : Z) (input : list string) :
  forall (member member' : Z) (rest : list string),
    setupUser_loop numMembers member input = Some (member', rest) ->
    0 < member' < numMembers.
Proof.
  induction input as [|reply input IH]; intros member member' rest;
    cbn [setupUser_loop];
    destruct (Z.leb_spec member 0), (Z.geb_spec member numMembers);
    cbn [orb]; intros E; try discriminate;
    try (injection E as E1 E2; lia);
    apply (IH _ _ _ E).
Qed.

(** [setupUser] never returns with DC, nor with [NONE], as the local
    member: its loop keeps polling unless [0 < member < 5]. *)
Lemma setupUser_members (g g' : Globals) (input rest : list string)
    (out : list Event) :
  setupUser g input = (out, Finished g' rest) ->
  In (me g') [JZ; RH; WM; EH].
Proof.
  unfold setupUser. cbn [print_members].
  destruct (setupUser_loop (1 + 1 + 1 + 1 + 1 + 1 - 1) (-1) input)
    as [[member r]|] eqn:E; [|discriminate].
  apply setupUser_loop_range in E.
  assert (Hm : member = 1 \/ member = 2 \/ member = 3 \/ member = 4) by lia.
  destruct Hm as [-> | [-> | [-> | ->]]]; cbn; intros H; injection H as _ H _;
    subst g'; cbn; auto.
Qed.

(** The out-of-range branch of [setupTargets] is dead: whatever the
    operator types, the notification is never printed. *)
Lemma setupTargets_loop_never_notifies (my : Zero) (allMembers : Z)
    (input : list string) :
  0 < allMembers ->
  forall destination : Z,
    ~ In (SerialPrintln INVALID_SELECTION)
         (fst (setupTargets_loop my allMembers destination input)).
Proof.
  intros Hall. induction input as [|reply input IH]; intros d;
    cbn [setupTargets_loop].
  - intros [].
  - destruct (startsWith reply "n" && negb (d =? 0)); [intros []|].
    destruct (atoi reply =? allMembers); [intros []|].
    destruct (Z.gtb_spec (atoi reply) 0), (Z.ltb_spec (atoi reply) allMembers);
      cbn [orb]; try lia;
      (destruct (shl_1U (atoi reply - 1)) as [bit|]; [|intros []];
       specialize (IH (to_byte (Z.lor d bit)));
       destruct (setupTargets_loop my allMembers (to_byte (Z.lor d bit)) input)
         as [out e];
       cbn [fst] in *; intros [Hin|Hin]; [discriminate | exact (IH Hin)]).
Qed.

(** What the prompts do accept as the spec has it: the ordinals 1 to 4 of
    the identity prompt and 1 to 5 of the recipient prompt. *)
Lemma setup_accepted_ordinals :
  map (fun reply => snd (setupUser initial [reply])) ["1"; "2"; "3"; "4"]
  = map (fun who => Finished (mkGlobals who 0 0) []) [JZ; RH; WM; EH]
  /\ map (fun reply => snd (setupTargets initial [reply; "n"]))
         ["1"; "2"; "3"; "4"; "5"]
     = map (fun who => Finished (mkGlobals NONE (Zero_val who) 0) [])
           [JZ; RH; WM; EH; DC]
  /\ map (fun reply => snd (setupUser initial [reply])) ["0"; "6"; "-1"; "x"]
     = map (fun _ => Polling initial) ["0"; "6"; "-1"; "x"].
Proof. repeat split. Qed.

(** The stray bit 6 that the reply 7 leaves in [destination] lands in the
    sender field of every chat identifier: JZ is then decoded as the
    sender 3, and no member is a recipient. *)
Lemma stray_recipient_bit (g : Globals) :
  sender (isChat g (chat_id JZ 0x40)) = 3
  /\ recipient_field (chat_id JZ 0x40) = 0
  /\ forMe (isChat g (chat_id JZ 0x40)) = false.
Proof.
  rewrite isChat_fields. cbn [sender forMe].
  change (recipient_field (chat_id JZ 0x40)) with 0.
  repeat split.
Qed.

(** C9, at the inputs where the code departs from it.  The identity prompt
    turns the in-range ordinal 5 down, although its [switch] has the case
    for DC: the loop tests [member >= numMembers].  The recipient prompt
    takes the out-of-range 7 as a member, sets bit 6 of [destination] and
    prints no notification: its range test is a disjunction that always
    holds.  The reply 0 makes it shift by -1. *)
Theorem setup_prompts_at_the_bounds :
  snd (setupUser initial ["5"]) = Polling initial
  /\ snd (setupUser initial ["5"; "2"]) = Finished (mkGlobals RH 0 0) []
  /\ select_member 5 = (DC, ZERO_NAME_DC)
  /\ snd (setupTargets (mkGlobals RH 0 0) ["7"; "n"])
     = Finished (mkGlobals RH 0x40 0) []
  /\ ~ In (SerialPrintln INVALID_SELECTION)
          (fst (setupTargets (mkGlobals RH 0 0) ["7"; "n"]))
  /\ snd (setupTargets (mkGlobals RH 0 0) ["0"]) = Undefined.
Proof.
  repeat split.
  cbv. intuition discriminate.
Qed.

(** * Further properties of the sketch *)

(** ** The codec *)

Lemma Zero_val_inj (a b : Zero) : Zero_val a = Zero_val b -> a = b.
Proof. destruct a, b; intros E; try reflexivity; discriminate. Qed.

(** X1.  Two chats with different senders or different recipient sets never
    share an identifier. *)
Theorem chat_id_injective (who who' : Zero) (r r' : Z) :
  recipient_set r ->
  recipient_set r' ->
  chat_id who r = chat_id who' r' ->
  who = who' /\ r = r'.
Proof.
  intros Hr Hr' E. split.
  - apply Zero_val_inj.
    rewrite <- (chat_id_sender_field who r Hr), E.
    apply chat_id_sender_field, Hr'.
  - rewrite <- (chat_id_recipient_field who r Hr), E.
    apply chat_id_recipient_field, Hr'.
Qed.

Lemma chat_id_injective_witness : RH = RH /\ 12 = 12.
Proof.
  apply (chat_id_injective RH RH 12 12).
  - unfold recipient_set, CAN_ZERO_MASK. lia.
  - unfold recipient_set, CAN_ZERO_MASK. lia.
  - reflexivity.
Defined.

Lemma kind_bit_clear_below (id : Z) :
  0 <= id < 2 ^ 11 -> kind_bit id = false -> id < 2 ^ 10.
Proof.
  intros Hid Hk. unfold kind_bit in Hk.
  apply Z.testbit_false in Hk; [|lia].
  change (2 ^ 11) with 2048 in Hid. change (2 ^ 10) with 1024 in *.
  assert (0 <= id / 1024 < 2)
    by (split; [apply Z.div_pos | apply Z.div_lt_upper_bound]; lia).
  assert (E : id / 1024 = 0).
  { rewrite <- (Z.mod_small (id / 1024) 2) by assumption. exact Hk. }
  pose proof (Z.div_mod id 1024 ltac:(lia)) as D. rewrite E in D.
  pose proof (Z.mod_pos_bound id 1024 ltac:(lia)). lia.
Qed.

(** X2.  Decoding, then encoding.  When [isChat] takes an 11-bit identifier
    for a chat and reports the value of a member as its sender, the
    identifier [sendCanMsg] computes for that member and the decoded
    recipients is the identifier that was decoded. *)
Theorem chat_id_of_decoded (g : Globals) (who : Zero) (id : Z) :
  0 <= id < 2 ^ 11 ->
  is_chat (isChat g id) = true ->
  sender (isChat g id) = Zero_val who ->
  chat_id who (recipient_field id) = id.
Proof.
  intros Hid. rewrite isChat_fields. cbn [is_chat sender]. intros Hc Hs.
  apply andb_true_iff in Hc. destruct Hc as [Hk _].
  apply negb_true_iff in Hk.
  pose proof (kind_bit_clear_below id Hid Hk) as Hlt.
  change (2 ^ 10) with 1024 in Hlt.
  pose proof (recipient_field_range id) as Hr.
  rewrite chat_id_sum by (unfold recipient_set, CAN_ZERO_MASK; lia).
  rewrite <- Hs. unfold sender_field, recipient_field, CAN_SRC_SHIFT.
  rewrite !land_mask, Z.shiftr_div_pow2 by lia. change (2 ^ 5) with 32.
  rewrite (Z.mod_small (id / 32))
    by (split; [apply Z.div_pos | apply Z.div_lt_upper_bound]; lia).
  symmetry. apply Z.div_mod. lia.
Qed.

Lemma chat_id_of_decoded_witness : chat_id EH (recipient_field 0x113) = 0x113.
Proof.
  apply (chat_id_of_decoded initial EH 0x113).
  - change (2 ^ 11) with 2048. lia.
  - reflexivity.
  - reflexivity.
Defined.

Lemma land_mask_low_bits (a b : Z) :
  (forall i, 0 <= i < 5 -> Z.testbit a i = Z.testbit b i) ->
  Z.land a CAN_ZERO_MASK = Z.land b CAN_ZERO_MASK.
Proof.
  intros H. apply Z.bits_inj'. intros i Hi.
  rewrite !Z.land_spec. change CAN_ZERO_MASK with (Z.ones 5).
  rewrite Z.testbit_ones_nonneg by lia.
  destruct (Z.ltb_spec i 5); [|now rewrite !andb_false_r].
  rewrite H by lia. reflexivity.
Qed.

(** X3.  [isChat] reads the low eleven bits of the identifier only: the
    bits above bit 10, which the 29-bit identifier of an extended frame
    has, change nothing of its three results. *)
Theorem isChat_low_bits (g : Globals) (id : Z) :
  isChat g (id mod 2 ^ 11) = isChat g id.
Proof.
  rewrite !isChat_fields.
  assert (Hk : kind_bit (id mod 2 ^ 11) = kind_bit id)
    by (unfold kind_bit; apply Z.mod_pow2_bits_low; lia).
  assert (Hs : sender_field (id mod 2 ^ 11) = sender_field id).
  { unfold sender_field, CAN_SRC_SHIFT. apply land_mask_low_bits. intros i Hi.
    rewrite !Z.shiftr_spec by lia. apply Z.mod_pow2_bits_low. lia. }
  assert (Hr : recipient_field (id mod 2 ^ 11) = recipient_field id).
  { unfold recipient_field. apply land_mask_low_bits. intros i Hi.
    apply Z.mod_pow2_bits_low. lia. }
  rewrite Hk, Hs, Hr. reflexivity.
Qed.

Lemma sender_field_stray (who : Zero) (d : Z) :
  0 <= d < 256 ->
  sender_field (chat_id who d) = Z.lor (Zero_val who) (Z.shiftr d CAN_SRC_SHIFT).
Proof.
  intros Hd. destruct (chat_id_lor who d Hd) as [-> _].
  unfold sender_field.
  rewrite Z.shiftr_lor, Z.shiftr_shiftl_l by (unfold CAN_SRC_SHIFT; lia).
  rewrite Z.sub_diag, Z.shiftl_0_r, land_mask.
  apply Z.mod_small.
  assert (Hq : 0 <= Z.shiftr d CAN_SRC_SHIFT < 2 ^ 5).
  { unfold CAN_SRC_SHIFT. rewrite Z.shiftr_div_pow2 by lia.
    change (2 ^ 5) with 32.
    split; [apply Z.div_pos | apply Z.div_lt_upper_bound]; lia. }
  change 32 with (2 ^ 5). apply lor_below; [|exact Hq].
  change (2 ^ 5) with 32. apply Zero_val_shifted.
Qed.

Lemma member_chat_classified (who : Zero) (d : Z) (rx : Globals) :
  who <> NONE ->
  0 <= d < 256 ->
  is_chat (isChat rx (chat_id who d)) = true.
Proof.
  intros Hw Hd. rewrite isChat_fields. cbn [is_chat].
  rewrite chat_id_kind_bit by exact Hd. cbn [negb andb].
  pose proof (sender_field_range (chat_id who d)) as Hr.
  destruct (Z.gtb_spec (sender_field (chat_id who d)) 0) as [|Hle];
    [reflexivity|].
  assert (E : sender_field (chat_id who d) = 0) by lia.
  rewrite sender_field_stray in E by exact Hd.
  apply Z.lor_eq_0_l in E. destruct who; try discriminate. contradiction.
Qed.

(** X4.  A chat of a member is always taken for a chat.  Whatever byte is
    stored as the recipients, also one with bits above the five member bits,
    the identifier of a sender other than [NONE] is classified as a chat by
    every receiver; the sender it reports is the member's bit joined with
    bits 5 to 7 of the recipients byte. *)
Theorem member_chat_is_chat (who : Zero) (d : Z) (rx : Globals) :
  who <> NONE ->
  0 <= d < 256 ->
  is_chat (isChat rx (chat_id who d)) = true
  /\ sender (isChat rx (chat_id who d))
     = Z.lor (Zero_val who) (Z.shiftr d CAN_SRC_SHIFT).
Proof.
  intros Hw Hd. split.
  - apply member_chat_classified; assumption.
  - rewrite isChat_fields. cbn [sender]. apply sender_field_stray, Hd.
Qed.

Lemma member_chat_is_chat_witness :
  is_chat (isChat initial (chat_id JZ 0xC3)) = true
  /\ sender (isChat initial (chat_id JZ 0xC3)) = Z.lor (Zero_val JZ) (Z.shiftr 0xC3 5).
Proof.
  apply (member_chat_is_chat JZ 0xC3 initial); [discriminate | lia].
Defined.

(** ** The receive path *)


Lemma no_pin_write_app (t u : list Event) :
  no_pin_write (t ++ u) = no_pin_write t && no_pin_write u.
Proof.
  induction t as [|e t IH]; [reflexivity|]. destruct e; cbn; trivial.
Qed.



Lemma command_id_not_chat (rx : Globals) :
  is_chat (isChat rx CAN_DEVICE_CMD) = false.
Proof. rewrite isChat_fields. reflexivity. Qed.

(** X6.  The LED command of this board is not for a board of its kind.  A
    second board running this sketch, handed the frames [canLedCmdSender]
    transmits, logs each packet and does nothing else, whatever the LED
    value: its LED stays as it is. *)
Theorem led_command_ignored_by_mega (ledVal : Z) (g rx : Globals) :
  Forall (fun f =>
            canMsgReceiver (Message (can_id f) true (dlc f) (payload f)) rx
            = (tt, rx, [LcdPacket (can_id f) (dlc f) (rx_buffer (payload f))]))
         (frames (trace_of (canLedCmdSender ledVal g))).
Proof.
  rewrite canLedCmdSender_frames.
  assert (Hrx : forall len bytes,
             at_index (rx_buffer bytes) DEV_INDEX = Device_val UNO \/ len < 2 ->
             canMsgReceiver (Message CAN_DEVICE_CMD true len bytes) rx
             = (tt, rx, [LcdPacket CAN_DEVICE_CMD len (rx_buffer bytes)])).
  { intros len bytes H. cbn [canMsgReceiver negb].
    unfold processCanPacket. cbv beta iota zeta delta [bind get].
    rewrite command_id_not_chat, processLedCmd_spec.
    destruct H as [H|H].
    - rewrite H. cbn. rewrite andb_false_r. reflexivity.
    - unfold VAL_INDEX. destruct (Z.leb_spec (1 + 1) len); [lia | reflexivity]. }
  apply Forall_app. split.
  - apply Forall_priming. cbn [can_id dlc payload]. apply Hrx. right. lia.
  - constructor; [|constructor]. cbn [can_id dlc payload]. apply Hrx. left.
    reflexivity.
Qed.

Lemma rx_buffer_pad (bytes : list Z) :
  exists pad : list Z, rx_buffer bytes = bytes ++ pad.
Proof. eexists. reflexivity. Qed.

Lemma chat_not_shown (i local : Zero) (r d last len : Z) (data : list Z) :
  i <> NONE ->
  recipient_set r ->
  Z.land r (Zero_val local) = 0 ->
  processCanPacket (chat_id i r) len data (mkGlobals local d last)
  = (tt, mkGlobals local d last, [LcdPacket (chat_id i r) len data]).
Proof.
  intros Hi Hr Hmem.
  unfold processCanPacket. cbv beta iota zeta delta [bind get].
  rewrite isChat_fields. cbn [is_chat forMe sender me].
  rewrite chat_id_sender_field, chat_id_recipient_field, chat_id_kind_bit
    by (trivial; apply recipient_set_byte, Hr).
  rewrite Hmem.
  assert (Hs : (Zero_val i >? 0) = true) by (destruct i; trivial; contradiction).
  rewrite Hs. reflexivity.
Qed.

(** X7.  From the sender's console to the receiver's.  When a member sends
    a text of at most 8 characters with no NUL in it, the board of every
    member of the recipient set, handed the data frame, prints the sender's
    name and the text; the board of every other member prints nothing and
    only logs the packet. *)
Theorem chat_delivered (i local : Zero) (r last_tx d last : Z) (t : string) :
  i <> NONE ->
  recipient_set r ->
  no_nul t = true ->
  strlen t <= CAN_MAX_CHAR_IN_MESSAGE ->
  exists f : Frame,
    last_frame (trace_of (sendCanMsg t (mkGlobals i r last_tx))) = Some f
    /\ canMsgReceiver (Message (can_id f) true (dlc f) (payload f))
                      (mkGlobals local d last)
       = (tt, mkGlobals local d last,
          (if Z.land r (Zero_val local) =? 0 then []
           else [SerialPrintln (Zero_name i ++ ": " ++ t)%string])
          ++ [LcdPacket (can_id f) (dlc f) (rx_buffer (payload f))]).
Proof.
  intros Hi Hr Hnul Ht.
  pose proof (strlen_nonneg t) as H0.
  unfold CAN_MAX_CHAR_IN_MESSAGE in Ht.
  assert (Hlen : to_byte (strlen t) = strlen t) by (apply to_byte_small; lia).
  set (g := mkGlobals i r last_tx).
  assert (Hg : byte_destination g) by (apply recipient_set_byte, Hr).
  exists (mkFrame (chat_id i r) CAN_BASE_FRAME_FORMAT (strlen t) (c_bytes t)).
  split.
  - apply (last_frame_snoc (priming last_tx (chat_id i r))).
    rewrite (sendCanMsg_frames t g Hg)
      by (rewrite Hlen; unfold CAN_MAX_CHAR_IN_MESSAGE; lia).
    cbn [me destination lastId g].
    rewrite firstn_c_bytes, Hlen by lia. reflexivity.
  - cbn [can_id dlc payload canMsgReceiver negb].
    destruct (Z.eqb_spec (Z.land r (Zero_val local)) 0) as [E|NE].
    + apply chat_not_shown; assumption.
    + destruct (rx_buffer_pad (c_bytes t)) as [pad ->].
      apply chat_shown; assumption.
Qed.

Lemma chat_delivered_witness :
  exists f : Frame,
    last_frame (trace_of (sendCanMsg "hi" (mkGlobals RH 12 0))) = Some f
    /\ canMsgReceiver (Message (can_id f) true (dlc f) (payload f))
                      (mkGlobals EH 1 0)
       = (tt, mkGlobals EH 1 0,
          (if Z.land 12 (Zero_val EH) =? 0 then []
           else [SerialPrintln (Zero_name RH ++ ": " ++ "hi")%string])
          ++ [LcdPacket (can_id f) (dlc f) (rx_buffer (payload f))]).
Proof.
  apply (chat_delivered RH EH 12 0 1 0 "hi").
  - discriminate.
  - unfold recipient_set, CAN_ZERO_MASK. lia.
  - reflexivity.
  - vm_compute. discriminate.
Defined.

(** X8.  The priming frame is read as a chat.  When a chat changes the
    identifier, the frame of no payload that goes out first is taken by
    every member of the recipient set for a chat of its own: the board
    prints the sender's name with an empty text. *)
Theorem priming_frame_shown (i local : Zero) (r last_tx d last : Z) (msg : string) :
  i <> NONE ->
  recipient_set r ->
  Z.land r (Zero_val local) <> 0 ->
  to_byte (strlen msg) <= CAN_MAX_CHAR_IN_MESSAGE ->
  last_tx <> chat_id i r ->
  exists (f : Frame) (rest : list Frame),
    frames (trace_of (sendCanMsg msg (mkGlobals i r last_tx))) = f :: rest
    /\ dlc f = 0
    /\ canMsgReceiver (Message (can_id f) true (dlc f) (payload f))
                      (mkGlobals local d last)
       = (tt, mkGlobals local d last,
          [SerialPrintln (Zero_name i ++ ": ")%string;
           LcdPacket (can_id f) 0 (rx_buffer [])]).
Proof.
  intros Hi Hr Hmem Hlen Hne.
  set (g := mkGlobals i r last_tx).
  assert (Hg : byte_destination g) by (apply recipient_set_byte, Hr).
  exists (mkFrame (chat_id i r) CAN_BASE_FRAME_FORMAT 0 []). eexists.
  split; [|split].
  - rewrite (sendCanMsg_frames msg g Hg Hlen). cbn [me destination lastId g].
    unfold priming. destruct (Z.eqb_spec last_tx (chat_id i r)); [contradiction|].
    reflexivity.
  - reflexivity.
  - cbn [can_id dlc payload canMsgReceiver negb].
    pose proof (chat_shown i local r d last "" (rx_buffer []) Hi Hr eq_refl Hmem)
      as H.
    cbv zeta in H. exact H.
Qed.

Lemma priming_frame_shown_witness :
  exists (f : Frame) (rest : list Frame),
    frames (trace_of (sendCanMsg "hi" (mkGlobals RH 12 0))) = f :: rest
    /\ dlc f = 0
    /\ canMsgReceiver (Message (can_id f) true (dlc f) (payload f))
                      (mkGlobals WM 1 0)
       = (tt, mkGlobals WM 1 0,
          [SerialPrintln (Zero_name RH ++ ": ")%string;
           LcdPacket (can_id f) 0 (rx_buffer [])]).
Proof.
  apply (priming_frame_shown RH WM 12 0 1 0 "hi").
  - discriminate.
  - unfold recipient_set, CAN_ZERO_MASK. lia.
  - vm_compute. discriminate.
  - vm_compute. discriminate.
  - vm_compute. discriminate.
Defined.

(** ** Sequences of transmissions *)

Lemma priming_same (id : Z) : priming id id = [].
Proof. unfold priming. now rewrite Z.eqb_refl. Qed.

Lemma priming_other (last id : Z) :
  last <> id -> priming last id = [mkFrame id CAN_BASE_FRAME_FORMAT 0 []].
Proof.
  intros H. unfold priming. destruct (Z.eqb_spec last id); [contradiction|].
  reflexivity.
Qed.

Lemma sendCanMsg_globals (msg : string) (g : Globals) :
  byte_destination g ->
  to_byte (strlen msg) <= CAN_MAX_CHAR_IN_MESSAGE ->
  globals_of (sendCanMsg msg g)
  = mkGlobals (me g) (destination g) (chat_id (me g) (destination g)).
Proof. intros Hg Hlen. rewrite (sendCanMsg_accepted msg g Hg Hlen). reflexivity. Qed.

Lemma canLedCmdSender_globals (ledVal : Z) (g : Globals) :
  globals_of (canLedCmdSender ledVal g)
  = mkGlobals (me g) (destination g) CAN_DEVICE_CMD.
Proof. rewrite canLedCmdSender_spec. reflexivity. Qed.

(** X9.  When a priming frame goes out.  Right after an accepted chat a
    second accepted chat transmits its data frame alone, and right after an
    LED command so does a second LED command; a chat after an LED command
    and an LED command after a chat always transmit two frames. *)
Theorem priming_between_sends (g : Globals) (m1 m2 : string) (v1 v2 : Z) :
  byte_destination g ->
  to_byte (strlen m1) <= CAN_MAX_CHAR_IN_MESSAGE ->
  to_byte (strlen m2) <= CAN_MAX_CHAR_IN_MESSAGE ->
  let after_chat := globals_of (sendCanMsg m1 g) in
  let after_led := globals_of (canLedCmdSender v1 g) in
  let id := chat_id (me g) (destination g) in
  let data (m : string) :=
    mkFrame id 0 (to_byte (strlen m))
            (firstn (Z.to_nat (to_byte (strlen m))) (c_bytes m)) in
  frames (trace_of (sendCanMsg m2 after_chat)) = [data m2]
  /\ frames (trace_of (canLedCmdSender v2 after_led)) = [led_frame v2]
  /\ frames (trace_of (sendCanMsg m2 after_led)) = [mkFrame id 0 0 []; data m2]
  /\ frames (trace_of (canLedCmdSender v2 after_chat))
     = [mkFrame CAN_DEVICE_CMD 0 0 []; led_frame v2].
Proof.
  intros Hg H1 H2 after_chat after_led id data.
  assert (Hne : id <> CAN_DEVICE_CMD).
  { destruct (chat_id_lor (me g) (destination g) Hg) as [_ Hb].
    unfold CAN_DEVICE_CMD. fold id in Hb. lia. }
  assert (Hc : after_chat = mkGlobals (me g) (destination g) id)
    by (apply sendCanMsg_globals; assumption).
  assert (Hl : after_led = mkGlobals (me g) (destination g) CAN_DEVICE_CMD)
    by apply canLedCmdSender_globals.
  rewrite Hc, Hl. clear Hc Hl after_chat after_led.
  rewrite !sendCanMsg_frames by assumption.
  rewrite !canLedCmdSender_frames.
  cbn [me destination lastId]. fold id.
  rewrite !priming_same.
  rewrite (priming_other CAN_DEVICE_CMD id) by auto.
  rewrite (priming_other id CAN_DEVICE_CMD) by auto.
  repeat split.
Qed.

Lemma priming_between_sends_witness :
  let g := mkGlobals RH 12 0 in
  let after_chat := globals_of (sendCanMsg "hi" g) in
  let after_led := globals_of (canLedCmdSender 1 g) in
  frames (trace_of (sendCanMsg "yo" after_chat))
  = [mkFrame 0x4C 0 2 (c_bytes "yo")]
  /\ frames (trace_of (canLedCmdSender 0 after_led)) = [led_frame 0]
  /\ frames (trace_of (sendCanMsg "yo" after_led))
     = [mkFrame 0x4C 0 0 []; mkFrame 0x4C 0 2 (c_bytes "yo")]
  /\ frames (trace_of (canLedCmdSender 0 after_chat))
     = [mkFrame CAN_DEVICE_CMD 0 0 []; led_frame 0].
Proof.
  apply (priming_between_sends (mkGlobals RH 12 0) "hi" "yo" 1 0).
  - unfold byte_destination. simpl. lia.
  - vm_compute. discriminate.
  - vm_compute. discriminate.
Defined.

Lemma run_nil (g : Globals) : run [] g = (tt, g, []).
Proof. reflexivity. Qed.


(** ** The button thread *)

Lemma buttonHandler_same (v : Z) (g : Globals) :
  buttonHandler v v g = (v, g, []).
Proof. unfold buttonHandler. now rewrite Z.eqb_refl. Qed.

Lemma buttonHandler_changed (last v : Z) (g : Globals) :
  v <> last ->
  buttonHandler last v g
  = (v, mkGlobals (me g) (destination g) CAN_DEVICE_CMD,
     trace_of (canLedCmdSender v g)).
Proof.
  intros H. unfold buttonHandler.
  destruct (Z.eqb_spec v last); [contradiction|]. cbn [negb].
  unfold bind. rewrite canLedCmdSender_spec. cbn [ret trace_of snd].
  now rewrite app_nil_r.
Qed.

Lemma buttonPolls_cons (last v : Z) (reads : list Z) (g : Globals) :
  let r := buttonHandler last v g in
  fst (fst (buttonPolls last (v :: reads) g))
  = fst (fst (buttonPolls (fst (fst r)) reads (globals_of r)))
  /\ frames (trace_of (buttonPolls last (v :: reads) g))
     = frames (trace_of r)
       ++ frames (trace_of (buttonPolls (fst (fst r)) reads (globals_of r))).
Proof.
  cbn [buttonPolls]. unfold bind, globals_of, trace_of.
  destruct (buttonHandler last v g) as [[l g1] o1]. cbn [fst snd].
  destruct (buttonPolls l reads g1) as [[l' g2] o2]. cbn [fst snd].
  now rewrite frames_app.
Qed.

Lemma buttonPolls_primed (reads : list Z) :
  forall (last : Z) (g : Globals),
    lastId g = CAN_DEVICE_CMD ->
    frames (trace_of (buttonPolls last reads g))
    = map led_frame (changes last reads).
Proof.
  induction reads as [|v reads IH]; intros last g Hg; [reflexivity|].
  destruct (buttonPolls_cons last v reads g) as [_ ->]. cbn [changes].
  destruct (Z.eqb_spec v last) as [->|NE].
  - rewrite buttonHandler_same. cbn [fst trace_of globals_of snd frames app].
    apply IH, Hg.
  - rewrite (buttonHandler_changed last v g NE).
    cbn [fst trace_of globals_of snd].
    rewrite (IH v (mkGlobals (me g) (destination g) CAN_DEVICE_CMD) eq_refl).
    change (snd (canLedCmdSender v g)) with (trace_of (canLedCmdSender v g)).
    rewrite canLedCmdSender_frames, Hg, priming_same. reflexivity.
Qed.

(** X11.  The button thread sends one command per change.  Over any
    sequence of pin readings the frames transmitted are one LED command for
    each reading that differs from the one before it, carrying that
    reading, in order; a priming frame goes out before the first of them
    only, and only if the last identifier was not the command's.  A steady
    pin transmits nothing. *)
Theorem buttonPolls_frames (reads : list Z) :
  forall (last : Z) (g : Globals),
    frames (trace_of (buttonPolls last reads g))
    = match changes last reads with
      | [] => []
      | vs => priming (lastId g) CAN_DEVICE_CMD ++ map led_frame vs
      end.
Proof.
  induction reads as [|v reads IH]; intros last g; [reflexivity|].
  destruct (buttonPolls_cons last v reads g) as [_ ->]. cbn [changes].
  destruct (Z.eqb_spec v last) as [->|NE].
  - rewrite buttonHandler_same. cbn [fst trace_of globals_of snd frames app].
    apply IH.
  - rewrite (buttonHandler_changed last v g NE).
    cbn [fst trace_of globals_of snd].
    rewrite (buttonPolls_primed reads v
               (mkGlobals (me g) (destination g) CAN_DEVICE_CMD) eq_refl).
    change (snd (canLedCmdSender v g)) with (trace_of (canLedCmdSender v g)).
    rewrite canLedCmdSender_frames, <- app_assoc. reflexivity.
Qed.

(** ** The identity prompt *)

Lemma setupUser_loop_skip (numMembers : Z) (input bad : list string) :
  forall member : Z,
    member <= 0 \/ member >= numMembers ->
    Forall (fun reply => ~ 0 < atoi reply < numMembers) bad ->
    setupUser_loop numMembers member (bad ++ input)
    = match input with
      | [] => None
      | reply :: rest => setupUser_loop numMembers (atoi reply) rest
      end.
Proof.
  assert (Hcond : forall m, m <= 0 \/ m >= numMembers ->
                            (m <=? 0) || (m >=? numMembers) = true).
  { intros m Hm. destruct (Z.leb_spec m 0), (Z.geb_spec m numMembers);
      try reflexivity; lia. }
  induction bad as [|b bad IH]; intros member Hm Hbad.
  - cbn [app]. destruct input; cbn [setupUser_loop]; now rewrite Hcond.
  - cbn [app setupUser_loop]. rewrite Hcond by exact Hm.
    inversion Hbad as [|? ? Hb Hbad']; subst.
    apply IH; [lia | exact Hbad'].
Qed.

Lemma setupUser_loop_take (numMembers member : Z) (rest : list string) :
  0 < member < numMembers ->
  setupUser_loop numMembers member rest = Some (member, rest).
Proof.
  intros Hm.
  assert ((member <=? 0) || (member >=? numMembers) = false)
    by (destruct (Z.leb_spec member 0), (Z.geb_spec member numMembers);
        try reflexivity; lia).
  destruct rest; cbn [setupUser_loop]; now rewrite H.
Qed.

(** X12.  The identity prompt takes the first reply that reads as 1, 2, 3
    or 4.  The replies in front of it are dropped without a word on the
    console; the member chosen is the one the menu numbers so; the
    recipients and the last identifier are untouched and the replies behind
    it are left unread.  While no such reply has come the function is still
    polling and has printed the menu only. *)
Theorem setupUser_first_ordinal (g : Globals) (bad : list string) :
  Forall (fun reply => ~ user_ordinal reply) bad ->
  setupUser g bad = (fst (setupUser g []), Polling g)
  /\ forall (reply : string) (rest : list string),
       user_ordinal reply ->
       let who := fst (select_member (atoi reply)) in
       In who [JZ; RH; WM; EH]
       /\ setupUser g (bad ++ reply :: rest)
          = (fst (setupUser g [])
             ++ [SerialPrintln DIVIDER; SerialPrint USER_WELCOME;
                 SerialPrintln (Zero_name who); SerialPrintln DIVIDER],
             Finished (mkGlobals who (destination g) (lastId g)) rest).
Proof.
  intros Hbad. unfold user_ordinal in *. split.
  - unfold setupUser. cbn [print_members].
    change (1 + 1 + 1 + 1 + 1 + 1 - 1) with 5.
    rewrite <- (app_nil_r bad) at 1.
    rewrite (setupUser_loop_skip 5 [] bad (-1)) by (trivial; lia).
    reflexivity.
  - intros reply rest Hreply.
    assert (Hm : atoi reply = 1 \/ atoi reply = 2 \/ atoi reply = 3
                 \/ atoi reply = 4) by lia.
    split.
    + destruct Hm as [-> | [-> | [-> | ->]]]; cbn; auto.
    + unfold setupUser. cbn [print_members].
      change (1 + 1 + 1 + 1 + 1 + 1 - 1) with 5.
      rewrite (setupUser_loop_skip 5 (reply :: rest) bad (-1)) by (trivial; lia).
      rewrite setupUser_loop_take by exact Hreply.
      destruct Hm as [-> | [-> | [-> | ->]]]; reflexivity.
Qed.

Lemma setupUser_first_ordinal_witness :
  setupUser initial ["0"; "5"; "x"] = (fst (setupUser initial []), Polling initial)
  /\ snd (setupUser initial (["0"; "5"; "x"] ++ "3" :: ["7"]))
     = Finished (mkGlobals WM 0 0) ["7"].
Proof.
  assert (Hbad : Forall (fun reply => ~ user_ordinal reply) ["0"; "5"; "x"]).
  { repeat constructor; unfold user_ordinal; vm_compute; intros [H1 H2];
      discriminate. }
  destruct (setupUser_first_ordinal initial ["0"; "5"; "x"] Hbad) as [Hp Hf].
  split; [exact Hp|].
  assert (H3 : user_ordinal "3") by (unfold user_ordinal; vm_compute; auto).
  rewrite (proj2 (Hf "3" ["7"] H3)). reflexivity.
Defined.

(** ** The recipient prompt *)

Lemma to_byte_range (x : Z) : 0 <= to_byte x < 256.
Proof. unfold to_byte. apply Z.mod_pos_bound. lia. Qed.

Lemma broadcast_minus_self_range (who : Zero) :
  0 < to_byte (Z.land CAN_ZERO_MASK (Z.lnot (Zero_val who))) < 256.
Proof. destruct who; vm_compute; split; reflexivity. Qed.

Lemma setupTargets_loop_chosen (my : Zero) (allMembers : Z) (input : list string) :
  forall (d d' : Z) (out : list Event) (rest : list string),
    0 <= d < 256 ->
    setupTargets_loop my allMembers d input = (out, Chosen d' rest) ->
    0 < d' < 256.
Proof.
  induction input as [|reply input IH]; intros d d' out rest Hd;
    cbn [setupTargets_loop]; [discriminate|].
  destruct (Z.eqb_spec d 0) as [E0|N0].
  - rewrite andb_false_r.
    destruct (atoi reply =? allMembers).
    { intros E. injection E as _ <- _. apply broadcast_minus_self_range. }
    destruct ((atoi reply >? 0) || (atoi reply <? allMembers)).
    + destruct (shl_1U (atoi reply - 1)) as [bit|]; [|discriminate].
      destruct (setupTargets_loop my allMembers (to_byte (Z.lor d bit)) input)
        as [o e] eqn:El.
      intros E. injection E as _ ->.
      apply (IH _ _ _ _ (to_byte_range _) El).
    + destruct (setupTargets_loop my allMembers d input) as [o e] eqn:El.
      intros E. injection E as _ ->. apply (IH _ _ _ _ Hd El).
  - destruct (startsWith reply "n"); cbn [andb negb].
    { intros E. injection E as _ <- _. lia. }
    destruct (atoi reply =? allMembers).
    { intros E. injection E as _ <- _. apply broadcast_minus_self_range. }
    destruct ((atoi reply >? 0) || (atoi reply <? allMembers)).
    + destruct (shl_1U (atoi reply - 1)) as [bit|]; [|discriminate].
      destruct (setupTargets_loop my allMembers (to_byte (Z.lor d bit)) input)
        as [o e] eqn:El.
      intros E. injection E as _ ->.
      apply (IH _ _ _ _ (to_byte_range _) El).
    + destruct (setupTargets_loop my allMembers d input) as [o e] eqn:El.
      intros E. injection E as _ ->. apply (IH _ _ _ _ Hd El).
Qed.

Lemma setupTargets_finished (g g' : Globals) (input rest : list string)
    (out : list Event) :
  setupTargets g input = (out, Finished g' rest) ->
  exists (asked : list Event) (d : Z),
    setupTargets_loop (me g) 6 0 input = (asked, Chosen d rest)
    /\ g' = mkGlobals (me g) d (lastId g).
Proof.
  unfold setupTargets. cbn [print_members].
  change (1 + 1 + 1 + 1 + 1 + 1 + 1 - 1) with 6.
  destruct (setupTargets_loop (me g) 6 0 input) as [asked e].
  destruct e as [d r|d|]; try discriminate.
  intros E. injection E as _ <- <-. exists asked, d. split; reflexivity.
Qed.

(** X13.  What the recipient prompt leaves behind.  Whenever
    [setupTargets] returns, whatever was typed, the recipients byte it
    stored is not zero and is a byte, and the member and the last
    identifier are what they were. *)
Theorem setupTargets_result (g g' : Globals) (input rest : list string)
    (out : list Event) :
  setupTargets g input = (out, Finished g' rest) ->
  0 < destination g' < 256 /\ me g' = me g /\ lastId g' = lastId g.
Proof.
  intros H. destruct (setupTargets_finished _ _ _ _ _ H) as (asked & d & El & ->).
  cbn [destination me lastId]. split; [|split; reflexivity].
  eapply setupTargets_loop_chosen; [|exact El]. lia.
Qed.

Lemma setupTargets_result_witness :
  0 < destination (mkGlobals RH 0x40 0) < 256
  /\ me (mkGlobals RH 0x40 0) = me (mkGlobals RH 0 0)
  /\ lastId (mkGlobals RH 0x40 0) = lastId (mkGlobals RH 0 0).
Proof.
  apply (setupTargets_result (mkGlobals RH 0 0) (mkGlobals RH 0x40 0) ["7"; "n"] []
           (fst (setupTargets (mkGlobals RH 0 0) ["7"; "n"]))).
  reflexivity.
Defined.

Lemma startsWith_n_atoi (reply : string) :
  startsWith reply "n" = true -> atoi reply = 0.
Proof.
  unfold startsWith. destruct reply as [|c reply]; cbn [String.prefix];
    [discriminate|].
  destruct (ascii_dec "n" c) as [<-|]; [|discriminate]. reflexivity.
Qed.

Lemma shl_1U_small (n : Z) : 0 <= n < 16 -> shl_1U n = Some (2 ^ n).
Proof.
  intros Hn. unfold shl_1U.
  destruct (Z.leb_spec 0 n), (Z.ltb_spec n 16); try lia. cbn [andb].
  rewrite Z.shiftl_1_l, to_uint_small; [reflexivity|].
  split; [apply Z.pow_nonneg; lia|].
  change 65536 with (2 ^ 16). apply Z.pow_lt_mono_r; lia.
Qed.

Lemma member_bit (m : Z) :
  1 <= m <= 5 ->
  2 ^ (m - 1) = Zero_val (fst (select_member m)) /\ 0 < 2 ^ (m - 1) < 2 ^ 5.
Proof.
  intros Hm.
  assert (H : m = 1 \/ m = 2 \/ m = 3 \/ m = 4 \/ m = 5) by lia.
  destruct H as [-> | [-> | [-> | [-> | ->]]]]; repeat split.
Qed.

Lemma add_targets_range (picks : list string) :
  forall d : Z,
    0 <= d < 2 ^ 5 ->
    Forall target_ordinal picks ->
    0 <= add_targets d picks < 2 ^ 5.
Proof.
  induction picks as [|p picks IH]; intros d Hd Hp; [exact Hd|].
  inversion Hp as [|? ? Hp1 Hp2]; subst. cbn [add_targets fold_left].
  apply IH; [|exact Hp2].
  apply lor_below; [exact Hd|]. destruct (member_bit (atoi p) Hp1). lia.
Qed.

Lemma setupTargets_loop_picks (my : Zero) (e : string) (rest picks : list string) :
  startsWith e "n" = true ->
  forall d : Z,
    0 <= d < 2 ^ 5 ->
    Forall target_ordinal picks ->
    picks <> [] \/ d <> 0 ->
    setupTargets_loop my 6 d (picks ++ e :: rest)
    = (repeat (SerialPrintln QUERY_ANOTHER) (List.length picks),
       Chosen (add_targets d picks) rest).
Proof.
  intros He. induction picks as [|p picks IH]; intros d Hd Hp Hne.
  - destruct Hne as [Hne|Hne]; [contradiction|].
    cbn [app setupTargets_loop]. rewrite He.
    destruct (Z.eqb_spec d 0); [contradiction|]. reflexivity.
  - inversion Hp as [|? ? Hp1 Hp2]; subst. unfold target_ordinal in Hp1.
    cbn [app setupTargets_loop].
    assert (Hn : startsWith p "n" = false).
    { destruct (startsWith p "n") eqn:E; [|reflexivity].
      apply startsWith_n_atoi in E. lia. }
    rewrite Hn. cbn [andb].
    destruct (Z.eqb_spec (atoi p) 6); [lia|].
    destruct (Z.gtb_spec (atoi p) 0); [|lia]. cbn [orb].
    rewrite shl_1U_small by lia.
    destruct (member_bit (atoi p) Hp1) as [_ Hbit].
    assert (Hd' : 0 <= Z.lor d (2 ^ (atoi p - 1)) < 2 ^ 5)
      by (apply lor_below; lia).
    change (2 ^ 5) with 32 in Hd'.
    rewrite to_byte_small by lia.
    rewrite IH; [reflexivity | change (2 ^ 5) with 32; lia | exact Hp2 |].
    right. intros E. apply Z.lor_eq_0_iff in E. lia.
Qed.

Lemma land_add_targets (picks : list string) (v : Z) :
  forall d : Z,
    Z.land (add_targets d picks) v <> 0
    <-> Z.land d v <> 0
        \/ exists reply, In reply picks /\ Z.land (2 ^ (atoi reply - 1)) v <> 0.
Proof.
  induction picks as [|p picks IH]; intros d; cbn [add_targets fold_left].
  - split; [auto | intros [H|[reply [[] _]]]; exact H].
  - fold (add_targets (Z.lor d (2 ^ (atoi p - 1))) picks).
    rewrite IH, Z.land_lor_distr_l. split.
    + intros [H|[reply [Hin H]]].
      * destruct (Z.eq_dec (Z.land d v) 0) as [E|NE]; [|auto].
        right. exists p. split; [left; reflexivity|].
        intros E'. apply H. apply Z.lor_eq_0_iff. auto.
      * right. exists reply. split; [right; exact Hin | exact H].
    + intros [H|[reply [[<-|Hin] H]]].
      * left. intros E. apply Z.lor_eq_0_iff in E. tauto.
      * left. intros E. apply Z.lor_eq_0_iff in E. tauto.
      * right. exists reply. auto.
Qed.

Lemma member_bit_meets (m : Z) (z : Zero) :
  1 <= m <= 5 ->
  (Z.land (2 ^ (m - 1)) (Zero_val z) <> 0 <-> fst (select_member m) = z).
Proof.
  intros Hm.
  assert (H : m = 1 \/ m = 2 \/ m = 3 \/ m = 4 \/ m = 5) by lia.
  destruct H as [-> | [-> | [-> | [-> | ->]]]]; destruct z; cbn;
    split; intros H; try reflexivity; try discriminate;
    try (exfalso; apply H; reflexivity).
Qed.

(** X14.  Picking recipients one by one.  After one or more replies that
    read as 1 to 5, a reply that starts with n ends the prompt; the
    recipients stored are a recipient set, and a member is in it exactly
    when one of the replies is the number the identity prompt gives that
    member.  One line asking for another member was printed per reply. *)
Theorem setupTargets_picks (g : Globals) (picks : list string) (e : string)
    (rest : list string) :
  picks <> [] ->
  Forall target_ordinal picks ->
  startsWith e "n" = true ->
  let d := add_targets 0 picks in
  snd (setupTargets g (picks ++ e :: rest))
  = Finished (mkGlobals (me g) d (lastId g)) rest
  /\ fst (setupTargets_loop (me g) 6 0 (picks ++ e :: rest))
     = repeat (SerialPrintln QUERY_ANOTHER) (List.length picks)
  /\ recipient_set d
  /\ forall z : Zero,
       Z.land d (Zero_val z) <> 0
       <-> exists reply, In reply picks /\ fst (select_member (atoi reply)) = z.
Proof.
  intros Hne Hp He d.
  assert (Hl := setupTargets_loop_picks (me g) e rest picks He 0
                  ltac:(change (2 ^ 5) with 32; lia) Hp (or_introl Hne)).
  fold d in Hl.
  split; [|split; [|split]].
  - unfold setupTargets. cbn [print_members].
    change (1 + 1 + 1 + 1 + 1 + 1 + 1 - 1) with 6. rewrite Hl. reflexivity.
  - rewrite Hl. reflexivity.
  - pose proof (add_targets_range picks 0
                  ltac:(change (2 ^ 5) with 32; lia) Hp) as H.
    fold d in H. change (2 ^ 5) with 32 in H.
    unfold recipient_set, CAN_ZERO_MASK. lia.
  - intros z. unfold d. rewrite land_add_targets. rewrite Z.land_0_l. split.
    + intros [H|[reply [Hin H]]]; [contradiction|].
      exists reply. split; [exact Hin|].
      apply member_bit_meets; [|exact H].
      exact (proj1 (Forall_forall _ _) Hp reply Hin).
    + intros [reply [Hin H]]. right. exists reply. split; [exact Hin|].
      apply member_bit_meets; [|exact H].
      exact (proj1 (Forall_forall _ _) Hp reply Hin).
Qed.

Lemma setupTargets_picks_witness :
  snd (setupTargets (mkGlobals RH 0 0) (["3"; "4"; "3"] ++ "no" :: ["x"]))
  = Finished (mkGlobals RH (add_targets 0 ["3"; "4"; "3"]) 0) ["x"]
  /\ recipient_set (add_targets 0 ["3"; "4"; "3"]).
Proof.
  assert (Hp : Forall target_ordinal ["3"; "4"; "3"])
    by (repeat constructor; vm_compute; discriminate).
  destruct (setupTargets_picks (mkGlobals RH 0 0) ["3"; "4"; "3"] "no" ["x"]
              ltac:(discriminate) Hp eq_refl) as (H1 & _ & H2 & _).
  split; [exact H1 | exact H2].
Defined.

Lemma to_byte_lor_high (d k : Z) :
  0 <= d < 256 -> 8 <= k -> to_byte (Z.lor d (2 ^ k)) = d.
Proof.
  intros Hd Hk. unfold to_byte. apply Z.bits_inj'. intros i Hi.
  rewrite Z.testbit_mod_pow2 by lia.
  destruct (Z.ltb_spec i 8); cbn [andb].
  - rewrite Z.lor_spec, Z.pow2_bits_false by lia. apply orb_false_r.
  - symmetry. apply (testbit_above d 8); [exact Hd | lia].
Qed.

(** X15.  Numbers outside the menu at the recipient prompt.  A reply that
    does not end the prompt and reads as 9 to 16 changes nothing and is
    answered like a member, by the question for another one; one that reads
    as 7 or 8 sets bit 6 or 7 of the recipients byte; one that reads as 0
    or less, as the letter n does while nobody is chosen yet, or as 17 or
    more, shifts [1U] by a count outside 0..15, which C leaves undefined. *)
Theorem setupTargets_outside_menu (my : Zero) (d : Z) (reply : string)
    (rest : list string) :
  0 <= d < 256 ->
  startsWith reply "n" && negb (d =? 0) = false ->
  (9 <= atoi reply <= 16 ->
   setupTargets_loop my 6 d (reply :: rest)
   = (SerialPrintln QUERY_ANOTHER :: fst (setupTargets_loop my 6 d rest),
      snd (setupTargets_loop my 6 d rest)))
  /\ (7 <= atoi reply <= 8 ->
      let d' := Z.lor d (2 ^ (atoi reply - 1)) in
      0 <= d' < 256
      /\ setupTargets_loop my 6 d (reply :: rest)
         = (SerialPrintln QUERY_ANOTHER :: fst (setupTargets_loop my 6 d' rest),
            snd (setupTargets_loop my 6 d' rest)))
  /\ (atoi reply <= 0 \/ 17 <= atoi reply ->
      setupTargets_loop my 6 d (reply :: rest) = ([], Shift_undefined)).
Proof.
  intros Hd Hexit.
  assert (Hor : forall m, (m >? 0) || (m <? 6) = true).
  { intros m. destruct (Z.gtb_spec m 0), (Z.ltb_spec m 6); try reflexivity; lia. }
  split; [|split]; intros Hm; cbn [setupTargets_loop]; rewrite Hexit, Hor.
  - destruct (Z.eqb_spec (atoi reply) 6); [lia|].
    rewrite shl_1U_small, to_byte_lor_high by lia.
    destruct (setupTargets_loop my 6 d rest). reflexivity.
  - destruct (Z.eqb_spec (atoi reply) 6); [lia|].
    assert (Hb : 0 <= Z.lor d (2 ^ (atoi reply - 1)) < 2 ^ 8).
    { apply lor_below; [exact Hd|].
      split; [apply Z.pow_nonneg | apply Z.pow_lt_mono_r]; lia. }
    change (2 ^ 8) with 256 in Hb. split; [exact Hb|].
    rewrite shl_1U_small, to_byte_small by lia.
    destruct (setupTargets_loop my 6 (Z.lor d (2 ^ (atoi reply - 1))) rest).
    reflexivity.
  - destruct (Z.eqb_spec (atoi reply) 6); [lia|].
    unfold shl_1U.
    destruct (Z.leb_spec 0 (atoi reply - 1)), (Z.ltb_spec (atoi reply - 1) 16);
      try lia; reflexivity.
Qed.

Lemma setupTargets_outside_menu_witness :
  setupTargets_loop RH 6 4 ("12" :: ["n"])
  = (SerialPrintln QUERY_ANOTHER :: fst (setupTargets_loop RH 6 4 ["n"]),
     snd (setupTargets_loop RH 6 4 ["n"]))
  /\ setupTargets_loop RH 6 0 ("n" :: ["1"]) = ([], Shift_undefined).
Proof.
  split.
  - apply (proj1 (setupTargets_outside_menu RH 4 "12" ["n"]
                    ltac:(lia) eq_refl)).
    vm_compute. split; discriminate.
  - apply (proj2 (proj2 (setupTargets_outside_menu RH 0 "n" ["1"]
                           ltac:(lia) eq_refl))).
    left. vm_compute. discriminate.
Defined.

(** X16.  The list of recipients printed at the end of [setupTargets] has
    the name of a member exactly when the member's bit is set in the
    recipients byte; bits 5 to 7 of the byte add no line. *)
Theorem print_recipients_members (d : Z) (z : Zero) :
  z <> NONE ->
  (In (SerialPrintln (Zero_name z)) (print_recipients d)
   <-> Z.land d (Zero_val z) > 0)
  /\ print_recipients d = print_recipients (Z.land d CAN_ZERO_MASK).
Proof.
  intros Hz. split.
  - unfold print_recipients.
    destruct (Z.gtb_spec (Z.land d (Zero_val JZ)) 0),
             (Z.gtb_spec (Z.land d (Zero_val RH)) 0),
             (Z.gtb_spec (Z.land d (Zero_val WM)) 0),
             (Z.gtb_spec (Z.land d (Zero_val EH)) 0),
             (Z.gtb_spec (Z.land d (Zero_val DC)) 0);
      destruct z; try contradiction; cbn [app In Zero_name];
      split; intros Hin; try lia;
      repeat (destruct Hin as [Hin|Hin]; [try discriminate|]);
      try contradiction; auto 6.
  - unfold print_recipients.
    assert (H : forall w : Zero,
               Z.land (Z.land d CAN_ZERO_MASK) (Zero_val w) = Z.land d (Zero_val w)).
    { intros w. rewrite <- Z.land_assoc. f_equal. destruct w; reflexivity. }
    rewrite !H. reflexivity.
Qed.

Lemma print_recipients_members_witness :
  (In (SerialPrintln (Zero_name WM)) (print_recipients 0x4C)
   <-> Z.land 0x4C (Zero_val WM) > 0)
  /\ print_recipients 0x4C = print_recipients (Z.land 0x4C CAN_ZERO_MASK).
Proof. apply (print_recipients_members 0x4C WM). discriminate. Defined.

(** ** From setup to the main loop *)

Lemma setupUser_keeps (g g' : Globals) (input rest : list string)
    (out : list Event) :
  setupUser g input = (out, Finished g' rest) ->
  destination g' = destination g /\ lastId g' = lastId g.
Proof.
  unfold setupUser. cbn [print_members].
  destruct (setupUser_loop (1 + 1 + 1 + 1 + 1 + 1 - 1) (-1) input)
    as [[member r]|]; [|discriminate].
  destruct (select_member member) as [who name].
  intros H. injection H as _ <- _. split; reflexivity.
Qed.

(** X17.  What the main loop starts from.  Whenever the two prompts of
    [setup] have returned, whatever was typed, the local member is one of
    JZ, RH, WM and EH, the recipients byte is a non-zero byte and [lastId]
    is still 0; and every frame the board then transmits for an accepted
    chat is taken for a chat by every receiver. *)
Theorem setup_session_result (input rest : list string) (out : list Event)
    (g : Globals) :
  setup_session initial input = (out, Finished g rest) ->
  In (me g) [JZ; RH; WM; EH]
  /\ 0 < destination g < 256
  /\ lastId g = 0
  /\ forall (msg : string) (rx : Globals),
       to_byte (strlen msg) <= CAN_MAX_CHAR_IN_MESSAGE ->
       Forall (fun f => is_chat (isChat rx (can_id f)) = true)
              (frames (trace_of (sendCanMsg msg g))).
Proof.
  unfold setup_session.
  destruct (setupUser initial input) as [out1 [g1 rest1| |]] eqn:E1;
    try discriminate.
  destruct (setupTargets g1 rest1) as [out2 e] eqn:E2.
  intros H. injection H as _ ->.
  pose proof (setupUser_members _ _ _ _ _ E1) as Hme.
  destruct (setupUser_keeps _ _ _ _ _ E1) as [_ Hl].
  destruct (setupTargets_finished _ _ _ _ _ E2) as (asked & d & El & Eg).
  assert (Hd : 0 < destination g < 256).
  { rewrite Eg. cbn [destination].
    eapply setupTargets_loop_chosen; [|exact El]. lia. }
  assert (Hm : me g = me g1) by (rewrite Eg; reflexivity).
  assert (Hl' : lastId g = lastId g1) by (rewrite Eg; reflexivity).
  rewrite <- Hm in Hme.
  assert (Hbyte : byte_destination g) by (unfold byte_destination; lia).
  assert (Hnone : me g <> NONE).
  { intros E. rewrite E in Hme. cbn in Hme. intuition discriminate. }
  split; [exact Hme | split; [exact Hd | split]].
  - rewrite Hl', Hl. reflexivity.
  - intros msg rx Hlen.
    rewrite (sendCanMsg_frames msg g Hbyte Hlen).
    pose proof (member_chat_classified (me g) (destination g) rx Hnone Hbyte)
      as Hc.
    apply Forall_app. split; [apply Forall_priming; exact Hc|].
    constructor; [exact Hc | constructor].
Qed.

Lemma setup_session_result_witness :
  In (me (mkGlobals EH 0x80 0)) [JZ; RH; WM; EH]
  /\ 0 < destination (mkGlobals EH 0x80 0) < 256
  /\ lastId (mkGlobals EH 0x80 0) = 0
  /\ forall (msg : string) (rx : Globals),
       to_byte (strlen msg) <= CAN_MAX_CHAR_IN_MESSAGE ->
       Forall (fun f => is_chat (isChat rx (can_id f)) = true)
              (frames (trace_of (sendCanMsg msg (mkGlobals EH 0x80 0)))).
Proof.
  apply (setup_session_result ["5"; "4"; "8"; "n"; "hi"] ["hi"]
           (fst (setup_session initial ["5"; "4"; "8"; "n"; "hi"]))
           (mkGlobals EH 0x80 0)).
  reflexivity.
Defined.

(** ** The hexadecimal rendering of a payload *)

Lemma string_length_append (s t : string) :
  String.length (s ++ t) = (String.length s + String.length t)%nat.
Proof. induction s as [|c s IH]; cbn; [reflexivity | now rewrite IH]. Qed.

Lemma hex_pairs_shift (b : Z) (l : list Z) (n : nat) :
  forall i : Z, 0 <= i -> hex_pairs (b :: l) (i + 1) n = hex_pairs l i n.
Proof.
  induction n as [|n IH]; intros i Hi; [reflexivity|].
  cbn [hex_pairs]. rewrite IH by lia. f_equal.
  unfold at_index. now rewrite Z2Nat.inj_add, Nat.add_1_r by lia.
Qed.

Lemma byteArrayToStr_cons (b : Z) (l : list Z) (n : nat) :
  byteArrayToStr (b :: l) (Z.of_nat (S n))
  = (hex02X b ++ byteArrayToStr l (Z.of_nat n))%string.
Proof.
  unfold byteArrayToStr. rewrite !Nat2Z.id. cbn [hex_pairs].
  now rewrite (hex_pairs_shift b l n 0).
Qed.

Lemma hex_val_digit (k : Z) : 0 <= k < 16 -> hex_val (hex_digit k) = k.
Proof.
  intros Hk.
  assert (H : k = 0 \/ k = 1 \/ k = 2 \/ k = 3 \/ k = 4 \/ k = 5 \/ k = 6
              \/ k = 7 \/ k = 8 \/ k = 9 \/ k = 10 \/ k = 11 \/ k = 12
              \/ k = 13 \/ k = 14 \/ k = 15) by lia.
  repeat (destruct H as [-> | H]; [reflexivity|]). subst. reflexivity.
Qed.

Lemma hex02X_inj (b b' : Z) :
  0 <= b < 256 -> 0 <= b' < 256 -> hex02X b = hex02X b' -> b = b'.
Proof.
  intros Hb Hb' E. unfold hex02X in E. injection E as E1 E2.
  apply (f_equal hex_val) in E1, E2.
  assert (Hq : forall x, 0 <= x < 256 -> 0 <= x / 16 < 16)
    by (intros x Hx; split; [apply Z.div_pos | apply Z.div_lt_upper_bound]; lia).
  rewrite !hex_val_digit in E1, E2
    by (try apply Hq; try apply Z.mod_pos_bound; lia).
  rewrite (Z.div_mod b 16), (Z.div_mod b' 16) by lia. congruence.
Qed.

(** X18.  The hexadecimal string of a payload.  [byteArrayToStr] writes two
    characters per byte, so the 17 bytes of [dataStr] hold the string and
    its terminator for every payload of at most 8 bytes; and two payloads
    of the same length with the same string are the same payload. *)
Theorem byteArrayToStr_faithful (l : list Z) :
  String.length (byteArrayToStr l (Z.of_nat (List.length l)))
  = (2 * List.length l)%nat
  /\ forall l' : list Z,
       Forall (fun b => 0 <= b < 256) l ->
       Forall (fun b => 0 <= b < 256) l' ->
       List.length l = List.length l' ->
       byteArrayToStr l (Z.of_nat (List.length l))
       = byteArrayToStr l' (Z.of_nat (List.length l')) ->
       l = l'.
Proof.
  induction l as [|b l [IHlen IHinj]].
  - split; [reflexivity|]. intros [|b' l'] _ _ Hlen _; [reflexivity|discriminate].
  - split.
    + cbn [List.length]. rewrite byteArrayToStr_cons, string_length_append, IHlen.
      cbn. lia.
    + intros [|b' l'] Hl Hl' Hlen E; [discriminate|].
      cbn [List.length] in *. rewrite !byteArrayToStr_cons in E.
      inversion Hl as [|? ? Hb Hl2]; inversion Hl' as [|? ? Hb' Hl2']; subst.
      unfold hex02X in E. cbn [append] in E. injection E as E1 E2 E3.
      f_equal.
      * apply hex02X_inj; trivial. unfold hex02X. now rewrite E1, E2.
      * apply IHinj; trivial. lia.
Qed.

Lemma byteArrayToStr_faithful_witness : [104; 105] = [104; 105].
Proof.
  apply (proj2 (byteArrayToStr_faithful [104; 105]) [104; 105]).
  - repeat constructor; lia.
  - repeat constructor; lia.
  - reflexivity.
  - reflexivity.
Defined.

(** ** Text from the console *)

Lemma not_too_long_line (msg : string) (g : Globals) :
  byte_destination g ->
  to_byte (strlen msg) <= CAN_MAX_CHAR_IN_MESSAGE ->
  ~ In (SerialPrintln (ERROR_MSG ++ FIRST_SECOND_SEG ++ MSG_TOO_LONG)%string)
       (trace_of (sendCanMsg msg g)).
Proof.
  intros Hg Hlen. rewrite (sendCanMsg_accepted msg g Hg Hlen).
  unfold trace_of, priming. cbn [snd].
  destruct (lastId g =? chat_id (me g) (destination g)); cbn [map app In];
    intros H; repeat (destruct H as [H|H]; [try discriminate|]); trivial.
  all: injection H as H; subst msg; vm_compute in Hlen; apply Hlen; reflexivity.
Qed.

(** X19.  What the console can send.  [canMsgSender] copies the trimmed
    text into the 8 bytes of [msg], terminator included.  Whenever the copy
    stays inside [msg] the text is transmitted as the data frame and the
    report that the message is too long is not printed; a text that still
    has 8 characters after trimming, which [sendCanMsg] would accept, is
    copied past the end of [msg]. *)
Theorem canMsgSender_sends (entered : string) (g : Globals) :
  byte_destination g ->
  let msg := c_str (trim entered) in
  (strlen msg = CAN_MAX_CHAR_IN_MESSAGE ->
   canMsgSender (Some entered) g = None
   /\ frames (trace_of (sendCanMsg msg g)) <> [])
  /\ forall r : unit * Globals * list Event,
       canMsgSender (Some entered) g = Some r ->
       r = sendCanMsg msg g
       /\ last_frame (trace_of r)
          = Some (mkFrame (chat_id (me g) (destination g)) 0 (strlen msg)
                          (c_bytes msg))
       /\ ~ In (SerialPrintln (ERROR_MSG ++ FIRST_SECOND_SEG ++ MSG_TOO_LONG)%string)
               (trace_of r).
Proof.
  intros Hg msg. pose proof (strlen_nonneg msg) as H0.
  unfold CAN_MAX_CHAR_IN_MESSAGE. split.
  - intros H8. split.
    + unfold canMsgSender. fold msg. rewrite H8. reflexivity.
    + rewrite (sendCanMsg_frames msg g Hg)
        by (rewrite to_byte_small; unfold CAN_MAX_CHAR_IN_MESSAGE; lia).
      intros E. apply app_eq_nil in E. destruct E as [_ E]. discriminate.
  - intros r. unfold canMsgSender. fold msg.
    destruct (Z.gtb_spec (strlen msg + 1) CAN_MAX_CHAR_IN_MESSAGE) as [|Hle];
      [discriminate|].
    unfold CAN_MAX_CHAR_IN_MESSAGE in Hle.
    intros E. injection E as <-.
    assert (Hb : to_byte (strlen msg) = strlen msg) by (apply to_byte_small; lia).
    assert (Hlen : to_byte (strlen msg) <= CAN_MAX_CHAR_IN_MESSAGE)
      by (rewrite Hb; unfold CAN_MAX_CHAR_IN_MESSAGE; lia).
    split; [reflexivity | split].
    + apply (last_frame_snoc (priming (lastId g) (chat_id (me g) (destination g)))).
      rewrite (sendCanMsg_frames msg g Hg Hlen).
      rewrite firstn_c_bytes, Hb by lia. reflexivity.
    + apply not_too_long_line; assumption.
Qed.

Lemma canMsgSender_sends_witness :
  canMsgSender (Some " 12345678 ") (mkGlobals RH 12 0) = None
  /\ frames (trace_of (sendCanMsg (c_str (trim " 12345678 ")) (mkGlobals RH 12 0)))
     <> [].
Proof.
  apply (proj1 (canMsgSender_sends " 12345678 " (mkGlobals RH 12 0)
                  ltac:(unfold byte_destination; simpl; lia))).
  reflexivity.
Defined.

(** ** Bringing up the bus *)

Lemma setupCan_loop_retries (n : nat) (tail : list bool) :
  setupCan_loop (repeat false n ++ tail)
  = (repeat (SerialPrintln "CAN Bus: Init Failed") n ++ fst (setupCan_loop tail),
     snd (setupCan_loop tail)).
Proof.
  induction n as [|n IH]; cbn [repeat app setupCan_loop].
  - now destruct (setupCan_loop tail).
  - rewrite IH. reflexivity.
Qed.

(** X20.  [setupCan] retries until the shield answers.  It reports one
    failure for every failed [begin], reports that the bus is ready after
    the first [begin] that succeeds and returns then; as long as every
    [begin] has failed it has not returned. *)
Theorem setupCan_retries (n : nat) (rest : list bool) :
  setupCan (repeat false n ++ true :: rest)
  = (SerialPrintln "CAN Bus: Initializing"
     :: repeat (SerialPrintln "CAN Bus: Init Failed") n
     ++ [SerialPrintln "CAN Bus: Init Ready"],
     Some rest)
  /\ setupCan (repeat false n)
     = (SerialPrintln "CAN Bus: Initializing"
        :: repeat (SerialPrintln "CAN Bus: Init Failed") n,
        None).
Proof.
  unfold setupCan. split.
  - rewrite setupCan_loop_retries. cbn [setupCan_loop fst snd].
    rewrite app_nil_r. reflexivity.
  - rewrite <- (app_nil_r (repeat false n)), setupCan_loop_retries.
    cbn [setupCan_loop fst snd]. rewrite app_nil_r. reflexivity.
Qed.

(** ** The line of a chat on the console *)



